(** * ExiLead scraper: pagination-aware extraction controller

    A shallow embedding of the parts of [Scraper/Final_Scraper copy.py]
    that drive pagination, parse the combined metadata blob, gate records
    through the duplicate check and extract the fields of one job card.

    Conventions.
    - Python [str] values are lists of characters ([str]); a character is an
      [ascii], read as a code point below 256 (Latin-1).  The character
      predicates below ([py_isspace], [is_word], ...) are Python's Unicode
      predicates restricted to that range.
    - Python [int] is [Z].
    - A browser, database or library call that can raise returns a [res]. *)

From Stdlib Require Import ZArith List Ascii String Bool Lia.
From stdpp Require Import gmap strings.
From Equations Require Import Equations.
Import ListNotations.

Local Open Scope Z_scope.

(** ** Python strings *)

Module PyStr.

Definition str := list ascii.

(** A literal of the source, as a character list. *)
Definition txt (x : string) : str := list_ascii_of_string x.

Definition code (c : ascii) : N := N_of_ascii c.

Definition in_range (lo hi : ascii) (c : ascii) : bool :=
  ((code lo <=? code c) && (code c <=? code hi))%N.

(** [str.isspace] on one character: TAB..CR, FS..US, SPACE, NEL, NBSP. *)
Definition py_isspace (c : ascii) : bool :=
  let n := code c in
  (((9 <=? n) && (n <=? 13)) || ((28 <=? n) && (n <=? 32))
   || (n =? 133) || (n =? 160))%N.

Definition is_digit (c : ascii) : bool := in_range "0" "9" c.

Definition is_ascii_alpha (c : ascii) : bool :=
  in_range "a" "z" c || in_range "A" "Z" c.

(** [str.isalnum() or '_'], which is what [\w] tests. *)
Definition is_word (c : ascii) : bool :=
  let n := code c in
  is_ascii_alpha c || is_digit c || Ascii.eqb c "_"
  || ((n =? 170) || (n =? 178) || (n =? 179) || (n =? 181) || (n =? 185)
      || (n =? 186) || (n =? 188) || (n =? 189) || (n =? 190)
      || ((192 <=? n) && (n <=? 214)) || ((216 <=? n) && (n <=? 246))
      || (248 <=? n))%N.

(** [str.lower] on one character. *)
Definition py_lower_char (c : ascii) : ascii :=
  let n := code c in
  if (((65 <=? n) && (n <=? 90))
      || ((192 <=? n) && (n <=? 222) && negb (n =? 215)))%N
  then ascii_of_N (n + 32) else c.

Definition lower (s : str) : str := map py_lower_char s.

Fixpoint lstrip_by (p : ascii -> bool) (s : str) : str :=
  match s with
  | c :: s' => if p c then lstrip_by p s' else s
  | [] => []
  end.

Definition rstrip_by (p : ascii -> bool) (s : str) : str :=
  rev (lstrip_by p (rev s)).

Definition strip_by (p : ascii -> bool) (s : str) : str :=
  rstrip_by p (lstrip_by p s).

(** [s.strip()] *)
Definition strip (s : str) : str := strip_by py_isspace s.

Definition char_in (chars : str) (c : ascii) : bool :=
  existsb (Ascii.eqb c) chars.

(** [s.strip(chars)] *)
Definition strip_chars (chars : str) (s : str) : str :=
  strip_by (char_in chars) s.

Fixpoint startswith (p s : str) : bool :=
  match p, s with
  | [], _ => true
  | a :: p', b :: s' => Ascii.eqb a b && startswith p' s'
  | _ :: _, [] => false
  end.

(** [p in s] *)
Fixpoint contains (p s : str) : bool :=
  startswith p s ||
  match s with
  | [] => false
  | _ :: s' => contains p s'
  end.

Definition str_eqb (a b : str) : bool :=
  (length a =? length b)%nat && startswith a b.

(** Truthiness of a Python string. *)
Definition truthy (s : str) : bool :=
  match s with [] => false | _ => true end.

(** [str(n)] for an [int]. *)
Definition digit_char (d : N) : ascii := ascii_of_N (48 + d).

Fixpoint digits_fuel (fuel : nat) (n : N) (acc : str) : str :=
  match fuel with
  | O => acc
  | S f =>
      let acc' := digit_char (N.modulo n 10) :: acc in
      if (n <? 10)%N then acc' else digits_fuel f (N.div n 10) acc'
  end.

Definition str_of_N (n : N) : str := digits_fuel (S (N.size_nat n)) n [].

Definition str_of_Z (z : Z) : str :=
  if z <? 0 then "-"%char :: str_of_N (Z.to_N (- z))
  else str_of_N (Z.to_N z).

End PyStr.
Import PyStr.


(** ** Regular expressions

    The patterns of the source, as syntax trees, and a backtracking matcher
    with the priorities of Python's [re]: alternatives left to right, greedy
    repeats longest first, lazy repeats shortest first.  Every repeat in the
    source ranges over a single character class, except the optional group
    of one location pattern ([Opt]). *)

Module Re.

Inductive cset :=
| CChar (c : ascii)
| CRange (lo hi : ascii)
| CDigit
| CSpace
| CWord
| CAny
| CUnion (a b : cset)
| CNot (a : cset).

(** Membership; [ic] is [re.IGNORECASE], which folds the case of literal
    characters (no case-insensitive pattern of the source has a range). *)
Fixpoint cs_mem (ic : bool) (cs : cset) (c : ascii) : bool :=
  match cs with
  | CChar x =>
      if ic then Ascii.eqb (py_lower_char c) (py_lower_char x)
      else Ascii.eqb c x
  | CRange lo hi => in_range lo hi c
  | CDigit => is_digit c
  | CSpace => py_isspace c
  | CWord => is_word c
  | CAny => negb (Ascii.eqb c "010")
  | CUnion a b => cs_mem ic a c || cs_mem ic b c
  | CNot a => negb (cs_mem ic a c)
  end.

Inductive re :=
| Eps
| Chr (cs : cset)
| Seq (a b : re)
| Alt (a b : re)
| Rep (cs : cset) (lo : nat) (hi : option nat) (greedy : bool)
| Opt (a : re)
| Grp (n : nat) (a : re)
| Bol
| Eol.

Fixpoint lit (s : str) : re :=
  match s with
  | [] => Eps
  | c :: s' => Seq (Chr (CChar c)) (lit s')
  end.

Fixpoint seqs (l : list re) : re :=
  match l with
  | [] => Eps
  | [a] => a
  | a :: l' => Seq a (seqs l')
  end.

Fixpoint alts (a : re) (l : list re) : re :=
  match l with
  | [] => a
  | b :: l' => Alt a (alts b l')
  end.

Definition star (cs : cset) : re := Rep cs 0 None true.
Definition plus (cs : cset) : re := Rep cs 1 None true.
Definition star_lazy (cs : cset) : re := Rep cs 0 None false.
Definition plus_lazy (cs : cset) : re := Rep cs 1 None false.
Definition opt_char (c : ascii) : re := Rep (CChar c) 0 (Some 1%nat) true.

(** Captured groups: group number to captured text. *)
Definition caps := nat -> option str.
Definition no_caps : caps := fun _ => None.
Definition set_cap (n : nat) (v : str) (c : caps) : caps :=
  fun i => if Nat.eqb i n then Some v else c i.

(** A finished match: the position where it ends, the unread input there and
    the groups. *)
Record mres := MRes { m_end : nat; m_rest : str; m_caps : caps }.

Definition kont := nat -> str -> caps -> option mres.

Definition hi_pred (hi : option nat) : option nat :=
  match hi with Some h => Some (Nat.pred h) | None => None end.

Definition hi_zero (hi : option nat) : bool :=
  match hi with Some O => true | _ => false end.

(** Greedy repeat of one character class: take as many as allowed, then give
    back one at a time. *)
Fixpoint rep_greedy (ic : bool) (cs : cset) (lo : nat) (hi : option nat)
    (pos : nat) (s : str) (c : caps) (k : kont) : option mres :=
  let stop := if Nat.eqb lo 0 then k pos s c else None in
  if hi_zero hi then stop else
  match s with
  | x :: s' =>
      if cs_mem ic cs x then
        match rep_greedy ic cs (Nat.pred lo) (hi_pred hi) (S pos) s' c k with
        | Some r => Some r
        | None => stop
        end
      else stop
  | [] => stop
  end.

(** Lazy repeat: stop as early as allowed, take one more on failure. *)
Fixpoint rep_lazy (ic : bool) (cs : cset) (lo : nat) (hi : option nat)
    (pos : nat) (s : str) (c : caps) (k : kont) : option mres :=
  let more :=
    if hi_zero hi then None else
    match s with
    | x :: s' =>
        if cs_mem ic cs x
        then rep_lazy ic cs (Nat.pred lo) (hi_pred hi) (S pos) s' c k
        else None
    | [] => None
    end in
  if Nat.eqb lo 0 then
    match k pos s c with
    | Some r => Some r
    | None => more
    end
  else more.

Definition at_eol (s : str) : bool :=
  match s with
  | [] => true
  | [c] => Ascii.eqb c "010"
  | _ => false
  end.

(** [m ic r pos s c k]: match [r] at position [pos], where the unread input
    is [s], then continue with [k]. *)
Fixpoint m (ic : bool) (r : re) (pos : nat) (s : str) (c : caps) (k : kont)
    : option mres :=
  match r with
  | Eps => k pos s c
  | Chr cs =>
      match s with
      | x :: s' => if cs_mem ic cs x then k (S pos) s' c else None
      | [] => None
      end
  | Seq a b => m ic a pos s c (fun pos' s' c' => m ic b pos' s' c' k)
  | Alt a b =>
      match m ic a pos s c k with
      | Some r => Some r
      | None => m ic b pos s c k
      end
  | Rep cs lo hi true => rep_greedy ic cs lo hi pos s c k
  | Rep cs lo hi false => rep_lazy ic cs lo hi pos s c k
  | Opt a =>
      match m ic a pos s c k with
      | Some r => Some r
      | None => k pos s c
      end
  | Grp n a =>
      m ic a pos s c
        (fun pos' s' c' => k pos' s' (set_cap n (firstn (pos' - pos) s) c'))
  | Bol => if Nat.eqb pos 0 then k pos s c else None
  | Eol => if at_eol s then k pos s c else None
  end.

Definition accept : kont := fun pos s c => Some (MRes pos s c).

(** A match that must not be empty (used by [sub] after an empty match). *)
Definition accept_nonempty (start : nat) : kont :=
  fun pos s c => if Nat.eqb pos start then None else Some (MRes pos s c).

(** [re.match(r, s)] *)
Definition re_match (ic : bool) (r : re) (s : str) : option mres :=
  m ic r 0 s no_caps accept.

(** The leftmost match that starts at [pos] or later. *)
Fixpoint search_from (ic : bool) (r : re) (pos : nat) (s : str)
    : option mres :=
  match m ic r pos s no_caps accept with
  | Some res => Some res
  | None =>
      match s with
      | [] => None
      | _ :: s' => search_from ic r (S pos) s'
      end
  end.

(** [re.search(r, s)] *)
Definition re_search (ic : bool) (r : re) (s : str) : option mres :=
  search_from ic r 0 s.

(** [match.group(n)] of a group that took part in the match. *)
Definition group (n : nat) (r : mres) : str :=
  match m_caps r n with Some v => v | None => [] end.

(** [re.sub(r, repl, s)] for a replacement [repl] without backslashes: every
    non-overlapping match, left to right.  [skip] counts the characters of
    the current match still to be dropped; after an empty match the next
    match at the same place must be non-empty. *)
Fixpoint sub_at (ic : bool) (r : re) (repl : str) (pos : nat) (s : str)
    (skip : nat) : str :=
  let next (n : nat) : str :=
    match s with
    | [] => []
    | _ :: s' => sub_at ic r repl (S pos) s' n
    end in
  let copy : str :=
    match s with
    | [] => []
    | x :: s' => x :: sub_at ic r repl (S pos) s' 0
    end in
  match skip with
  | S n => next n
  | O =>
      match m ic r pos s no_caps accept with
      | None => copy
      | Some res =>
          match (m_end res - pos)%nat with
          | S n => repl ++ next n
          | O =>
              repl ++
              match m ic r pos s no_caps (accept_nonempty pos) with
              | None => copy
              | Some res' => repl ++ next (Nat.pred (m_end res' - pos))
              end
          end
      end
  end.

Definition re_sub (ic : bool) (r : re) (repl : str) (s : str) : str :=
  sub_at ic r repl 0 s 0.

End Re.
Import Re.

(** ** Metadata text parser ([parse_metadata]) *)

Module Metadata.

Definition nl : ascii := "010".
Definition na : str := txt "N/A".

Definition ch (c : ascii) : cset := CChar c.
Definition colon_or_space : cset := CUnion (ch ":") CSpace.

(** [\d{1,2}/\d{1,2}/\d{2,4}] *)
Definition slash_date : re :=
  seqs [Rep CDigit 1 (Some 2%nat) true; lit (txt "/");
        Rep CDigit 1 (Some 2%nat) true; lit (txt "/");
        Rep CDigit 2 (Some 4%nat) true].

(** The tail shared by the first two location patterns, each alternative
    behind [pre]. *)
Definition loc_stop (pre : re) (last : list re) : re :=
  alts (seqs [pre; lit [nl]])
    ([seqs [pre; lit (txt "posted")];
      seqs [pre; lit (txt "date")];
      seqs [pre; plus CDigit; lit (txt "/"); plus CDigit];
      seqs [pre; plus CDigit; lit (txt " day"); opt_char "s"];
      seqs [pre; plus CDigit; lit (txt " hour"); opt_char "s"]] ++ last).

(** [location_patterns]; all carry [(?i)]. *)
Definition location_patterns : list re :=
  [ seqs [lit (txt "location"); opt_char "s"; star colon_or_space;
          Grp 1 (star_lazy CAny); loc_stop Eps [Eol]];
    seqs [Grp 1 (star_lazy CAny); loc_stop (star CSpace) []];
    seqs [Bol; Grp 1 (star_lazy (CNot (CUnion (ch "(") (ch nl))));
          Opt (seqs [star CSpace; lit (txt "("); star (CNot (ch ")"));
                     lit (txt ")")]);
          Alt (seqs [star CSpace; lit [nl]]) Eol] ].

(** [date_patterns]; all carry [(?i)]. *)
Definition date_patterns : list re :=
  [ seqs [Alt (lit (txt "posted")) (lit (txt "date")); star colon_or_space;
          Grp 1 slash_date];
    Grp 1 slash_date;
    Grp 1 (seqs [plus CDigit; lit (txt " day"); opt_char "s"; lit (txt " ago")]);
    Grp 1 (seqs [plus CDigit; lit (txt " hour"); opt_char "s"; lit (txt " ago")]);
    Grp 1 (Alt (lit (txt "yesterday")) (lit (txt "today")));
    seqs [lit (txt "posting date"); opt_char "s"; Grp 1 slash_date] ].

(** [Posted\s+([A-Za-z]{3,9} \d{1,2}, \d{4})] followed by group 2, the rest
    of the line (dot-star). *)
Definition special_re : re :=
  seqs [lit (txt "Posted"); plus CSpace;
        Grp 1 (seqs [Rep (CUnion (CRange "A" "Z") (CRange "a" "z")) 3
                       (Some 9%nat) true;
                     lit (txt " "); Rep CDigit 1 (Some 2%nat) true;
                     lit (txt ", "); Rep CDigit 4 (Some 4%nat) true]);
        Grp 2 (star CAny)].

(** [Experience[:\s]*([\w\-\s]+?years?)], with [re.IGNORECASE] *)
Definition exp_re : re :=
  seqs [lit (txt "Experience"); star colon_or_space;
        Grp 1 (seqs [plus_lazy (CUnion CWord (CUnion (ch "-") CSpace));
                     lit (txt "year"); opt_char "s"])].

(** [Required Skill[:\s]*(.+)], with [re.IGNORECASE] *)
Definition skill_re : re :=
  seqs [lit (txt "Required Skill"); star colon_or_space; Grp 1 (plus CAny)].

(** [([^,\n]+?)(?:\s+Full time|\s+Experience:|\s+Required Skill:|$)] *)
Definition loc_re : re :=
  seqs [Grp 1 (plus_lazy (CNot (CUnion (ch ",") (ch nl))));
        alts (seqs [plus CSpace; lit (txt "Full time")])
          [seqs [plus CSpace; lit (txt "Experience:")];
           seqs [plus CSpace; lit (txt "Required Skill:")];
           Eol]].

(** [^\d+[/\-]\d+] *)
Definition leading_date_re : re :=
  seqs [Bol; plus CDigit; Chr (CUnion (ch "/") (ch "-")); plus CDigit].

(** [\s*\(.*?\)\s*$] *)
Definition paren_suffix_re : re :=
  seqs [star CSpace; lit (txt "("); star_lazy CAny; lit (txt ")");
        star CSpace; Eol].

(** [\s*(hybrid|remote|on-?site)\s*$], with [re.IGNORECASE] *)
Definition mode_suffix_re : re :=
  seqs [star CSpace;
        Grp 1 (alts (lit (txt "hybrid"))
                 [lit (txt "remote");
                  seqs [lit (txt "on"); opt_char "-"; lit (txt "site")]]);
        star CSpace; Eol].

(** The result: the 2-tuple or the 4-tuple of the source. *)
Inductive meta :=
| Meta2 (location posted_date : str)
| Meta4 (location posted_date experience skills : str).

(** The loop over [location_patterns]; [location] is the value so far. *)
Fixpoint find_location (patterns : list re) (text : str) (location : str)
    : str :=
  match patterns with
  | [] => location
  | pattern :: rest =>
      match re_search true pattern text with
      | Some mt =>
          let potential_location := strip (group 1 mt) in
          if truthy potential_location
             && negb (bool_decide
                        (is_Some (re_match false leading_date_re
                                    potential_location)))
          then
            let p1 := re_sub false paren_suffix_re [] potential_location in
            let p2 := re_sub true mode_suffix_re [] p1 in
            if (0 <? length (strip p2))%nat then strip p2
            else find_location rest text location
          else find_location rest text location
      | None => find_location rest text location
      end
  end.

(** The loop over [date_patterns]. *)
Fixpoint find_date (patterns : list re) (text : str) (posted_date : str)
    : str :=
  match patterns with
  | [] => posted_date
  | pattern :: rest =>
      match re_search true pattern text with
      | Some mt => strip (group 1 mt)
      | None => find_date rest text posted_date
      end
  end.

Definition parse_metadata (metadata_text : str) : meta :=
  let location := na in
  let posted_date := na in
  if negb (truthy metadata_text) then Meta2 location posted_date else
  let text := strip metadata_text in
  match re_match false special_re text with
  | Some special_match =>
      Meta2 (strip_chars (txt " ,") (group 2 special_match))
            (strip (group 1 special_match))
  | None =>
      let exp_match := re_search true exp_re text in
      let skill_match := re_search true skill_re text in
      let loc_match := re_match false loc_re text in
      let location_val :=
        match loc_match with
        | Some mt => strip (group 1 mt)
        | None => location
        end in
      let experience_val :=
        match exp_match with
        | Some mt => strip (group 1 mt)
        | None => na
        end in
      let skills_val :=
        match skill_match with
        | Some mt => strip (group 1 mt)
        | None => na
        end in
      if negb (str_eqb experience_val na) || negb (str_eqb skills_val na)
      then Meta4 location_val na experience_val skills_val
      else Meta2 (find_location location_patterns text location)
                 (find_date date_patterns text posted_date)
  end.

End Metadata.
Import Metadata.

(** ** Effects: calls that can raise, over an explicit world

    A Python exception is [Raise msg], with [msg] the text of [str(e)].
    The browser, the database and the external services are a [World]: an
    abstract state and one transition per call of the source.  Every call
    made is appended to a log, so that a theorem can speak of the clicks,
    scrolls and navigations a function performed. *)

Module Effects.

Inductive res (A : Type) :=
| Ok (a : A)
| Raise (msg : str).
Arguments Ok {A} a.
Arguments Raise {A} msg.

(** The calls the source makes on a page, an element or a service. *)
Inductive call :=
| PageUrl
| Goto (url : str)
| QuerySelector (sel : str)
| QuerySelectorAll (sel : str)
| ScrollToBottom
| WaitForTimeout (ms : Z)
| WaitForSelector (sel : str) (timeout : Z)
| ElQuerySelector (sel : str)
| ElTextContent
| ElGetAttribute (name : string)
| ElClick
| DbConnect
| DbCursor
| DbExecute (link : str)
| DbFetchone
| DbClose
| DbCursorExit
| DynamicCookies
| CrawlDetails (url : str)
| Enrich.

Record World := {
  W : Type;                       (* state of browser, database, services *)
  H : Type;                       (* element handles *)
  Conn : Type;                    (* database connections *)
  Cursor : Type;
  Job : Type;                     (* the record appended to the output *)
  (* page *)
  page_url : W -> res str * W;
  page_goto : str -> W -> res unit * W;
  page_query_selector : str -> W -> res (option H) * W;
  page_query_selector_all : str -> W -> res (list H) * W;
  page_scroll_to_bottom : W -> res unit * W;
  page_wait_for_timeout : Z -> W -> res unit * W;
  page_wait_for_selector : str -> Z -> W -> res unit * W;
  (* element handles *)
  el_query_selector : H -> str -> W -> res (option H) * W;
  el_text_content : H -> W -> res (option str) * W;
  el_get_attribute : H -> string -> W -> res (option str) * W;
  el_click : H -> W -> res unit * W;
  (* database *)
  env_database_url : W -> option str;
  db_connect : str -> W -> res Conn * W;
  db_cursor : Conn -> W -> res Cursor * W;
  db_execute : Cursor -> str -> W -> res unit * W;
  db_fetchone : Cursor -> W -> res (option Z) * W;
  db_close : Conn -> W -> res unit * W;
  db_cursor_exit : Cursor -> W -> res unit * W;
  (* services *)
  dynamic_cookies : W -> W;
  crawl_details : str -> W -> res str * W;
  now_isoformat : W -> str;
  urljoin_origin : str -> str -> res str;
  enrich : gmap string str -> W -> (Job * bool) * W
}.

Section Monad.
Context (B : World).

Definition St : Type := W B * list call.

(** A computation: from a state to a result or an exception, and a state. *)
Definition M (A : Type) : Type := St -> res A * St.

Definition ret {A} (a : A) : M A := fun st => (Ok a, st).

Definition raise {A} (msg : str) : M A := fun st => (Raise msg, st).

Definition bind {A C} (x : M A) (f : A -> M C) : M C :=
  fun st =>
    match x st with
    | (Ok a, st') => f a st'
    | (Raise msg, st') => (Raise msg, st')
    end.

(** [try: body / except Exception as e: handler(str(e))] *)
Definition try_except {A} (body : M A) (handler : str -> M A) : M A :=
  fun st =>
    match body st with
    | (Ok a, st') => (Ok a, st')
    | (Raise msg, st') => handler msg st'
    end.

(** One call on the world, logged. *)
Definition perform {A} (c : call) (op : W B -> res A * W B) : M A :=
  fun st =>
    let '(r, w') := op (fst st) in (r, (w', snd st ++ [c])).

(** A call that cannot raise. *)
Definition perform_total {A} (c : call) (op : W B -> A * W B) : M A :=
  fun st =>
    let '(a, w') := op (fst st) in (Ok a, (w', snd st ++ [c])).

Definition read {A} (f : W B -> A) : M A := fun st => (Ok (f (fst st)), st).

End Monad.

Arguments ret {B A} a.
Arguments raise {B A} msg.
Arguments bind {B A C} x f.
Arguments try_except {B A} body handler.
Arguments perform {B A} c op.
Arguments perform_total {B A} c op.
Arguments read {B A} f.

End Effects.
Import Effects.

Notation "'let*' x ':=' m 'in' k" := (bind m (fun x => k))
  (at level 10, x name, m at level 100, k at level 200).
Notation "m ';;' k" := (bind m (fun _ => k))
  (at level 100, k at level 200, right associativity).

(** ** Configuration

    The normalized per-site record.  A key read with [config['k']] is a
    field; a key read with [config.get('k')] is optional. *)

Record Config := {
  url : str;
  card_selector : str;
  title_selector : str;
  location_selector : str;
  posted_selector : str;
  link_selector : str;
  max_jobs : Z;
  description_selector : option str;
  metadata_selector : option str;
  use_metadata_parsing : option bool;
  company_name : option str;
  pagination_type : option str;
  pagination_selector : option str;
  pagination_param : option str;
  pagination_step : option Z;
  scroll_pause : option Z
}.

(** [config.get(k, default)] *)
Definition get_or {A} (x : option A) (default : A) : A :=
  match x with Some v => v | None => default end.

(** Truthiness of [config.get(k)] for a string-valued key. *)
Definition truthy_opt (x : option str) : bool :=
  match x with Some v => truthy v | None => false end.

(** [a == b] and [a != b] on optional strings. *)
Definition opt_is (x : option str) (v : str) : bool :=
  match x with Some a => str_eqb a v | None => false end.

(** ** Pagination strategy engine *)

Section Pagination.
Context (B : World).

Local Abbreviation M := (M B).

(** [len(page.query_selector_all(sel))] *)
Definition count_cards (sel : str) : M nat :=
  let* cards := perform (QuerySelectorAll sel) (page_query_selector_all B sel) in
  ret (length cards).

(** *** [handle_url_param_pagination] *)

(** The next parameter value (lines 649-658). *)
Definition next_value (param : str) (step page_number : Z) : Z :=
  if str_eqb param (txt "startrow") then (page_number - 1) * step + step
  else if str_eqb param (txt "page") then page_number + 1
  else if str_eqb param (txt "p") then page_number + 1
  else if str_eqb param (txt "jobOffset") then (page_number - 1) * step + step
  else page_number + 1.

(** The pattern [f'{param}=\\d+'], for a [param] without regex
    metacharacters. *)
Definition param_re (param : str) : re :=
  seqs [lit param; lit (txt "="); plus CDigit].

(** [f'{param}={next_value}'] *)
Definition param_assign (param : str) (value : Z) : str :=
  param ++ txt "=" ++ str_of_Z value.

(** Update or add the parameter (lines 661-666). *)
Definition next_url (param : str) (value : Z) (current_url : str) : str :=
  if contains (param ++ txt "=") current_url
  then re_sub false (param_re param) (param_assign param value) current_url
  else
    let separator :=
      if contains (txt "?") current_url then txt "&" else txt "?" in
    current_url ++ separator ++ param_assign param value.

Definition handle_url_param_pagination (config : Config) (page_number : Z)
    : M bool :=
  try_except
    (let param := get_or (pagination_param config) (txt "page") in
     let step := get_or (pagination_step config) 1 in
     let* current_url := perform PageUrl (page_url B) in
     let value := next_value param step page_number in
     let new_url := next_url param value current_url in
     perform (Goto new_url) (page_goto B new_url);;
     perform (WaitForTimeout 3000) (page_wait_for_timeout B 3000);;
     let* jobs_found :=
       if truthy (card_selector config)
       then count_cards (card_selector config)
       else ret 0%nat in
     if Nat.eqb jobs_found 0 then ret false else ret true)
    (fun _ => ret false).

(** *** [handle_button_pagination] *)

Definition handle_button_pagination (config : Config) (current_page : Z)
    : M bool :=
  try_except
    (if negb (truthy_opt (pagination_selector config)) then ret false else
     let sel := get_or (pagination_selector config) [] in
     let* next_button :=
       perform (QuerySelector sel) (page_query_selector B sel) in
     match next_button with
     | None => ret false
     | Some button =>
         let* disabled_attr :=
           perform (ElGetAttribute "disabled")
             (el_get_attribute B button "disabled") in
         let* is_disabled :=
           if truthy_opt disabled_attr then ret true
           else
             let* class_attr :=
               perform (ElGetAttribute "class")
                 (el_get_attribute B button "class") in
             ret (contains (txt "disabled") (get_or class_attr [])) in
         if is_disabled then ret false else
         perform ElClick (el_click B button);;
         try_except
           (perform (WaitForSelector (card_selector config) 10000)
              (page_wait_for_selector B (card_selector config) 10000);;
            perform (WaitForTimeout 1000) (page_wait_for_timeout B 1000))
           (fun _ => ret tt);;
         ret true
     end)
    (fun _ => ret false).

(** *** [handle_infinite_scroll] *)

Definition max_consecutive_attempts : nat := 3.
Definition max_scrolls : nat := 20.

(** One pass through the body of the [while] loop; the result tells whether
    new cards were loaded. *)
Definition scroll_once (config : Config) : M bool :=
  let scroll_pause := get_or (scroll_pause config) 2 in
  let* before_scroll_count := count_cards (card_selector config) in
  perform ScrollToBottom (page_scroll_to_bottom B);;
  perform (WaitForTimeout (scroll_pause * 1000))
    (page_wait_for_timeout B (scroll_pause * 1000));;
  try_except
    (perform (WaitForSelector (card_selector config) 3000)
       (page_wait_for_selector B (card_selector config) 3000))
    (fun _ => ret tt);;
  let* after_scroll_count := count_cards (card_selector config) in
  ret (before_scroll_count <? after_scroll_count)%nat.

(** The [while] loop; it returns the final [consecutive_no_load] and
    [total_scrolls]. *)
Equations? scroll_loop (config : Config)
    (consecutive_no_load total_scrolls : nat) (st : St B)
    : res (nat * nat) * St B
    by wf (max_scrolls - total_scrolls)%nat lt :=
  scroll_loop config consecutive_no_load total_scrolls st
    with (consecutive_no_load <? max_consecutive_attempts)%nat,
         lt_dec total_scrolls max_scrolls => {
    | true, left _ with scroll_once config st => {
        | (Ok loaded, st') =>
            scroll_loop config
              (if loaded then 0%nat else S consecutive_no_load)
              (S total_scrolls) st'
        | (Raise msg, st') => (Raise msg, st') };
    | _, _ => (Ok (consecutive_no_load, total_scrolls), st) }.
Proof. unfold max_scrolls in *. lia. Qed.

Definition handle_infinite_scroll (config : Config) (current_page : Z)
    : M bool :=
  try_except
    (let* initial_count := count_cards (card_selector config) in
     let* at_exit := scroll_loop config 0 0 in
     let* final_count := count_cards (card_selector config) in
     let total_new_jobs := Z.of_nat final_count - Z.of_nat initial_count in
     if 0 <? total_new_jobs then ret true else ret false)
    (fun _ => ret false).

(** *** [handle_pagination] *)

Definition handle_pagination (config : Config) (current_page : Z) : M bool :=
  let pagination_type := get_or (pagination_type config) (txt "none") in
  if str_eqb pagination_type (txt "button_click")
  then handle_button_pagination config current_page
  else if str_eqb pagination_type (txt "infinite_scroll")
  then handle_infinite_scroll config current_page
  else if str_eqb pagination_type (txt "url_param")
  then handle_url_param_pagination config current_page
  else ret false.

End Pagination.

(** ** Deduplication gate *)

Section Dedup.
Context (B : World).

Local Abbreviation M := (M B).

(** [with enter as x: body]: the exit call runs also when the body raises;
    an exception of the exit call replaces that of the body. *)
Definition with_ {A C} (enter : M A) (exit_ : A -> M unit) (body : A -> M C)
    : M C :=
  let* x := enter in
  fun st =>
    match body x st with
    | (Ok v, st') =>
        match exit_ x st' with
        | (Ok _, st'') => (Ok v, st'')
        | (Raise msg, st'') => (Raise msg, st'')
        end
    | (Raise msg, st') =>
        match exit_ x st' with
        | (Ok _, st'') => (Raise msg, st'')
        | (Raise msg', st'') => (Raise msg', st'')
        end
    end.

Definition get_db_connection : M (option (Conn B)) :=
  try_except
    (let* database_url := read (env_database_url B) in
     if negb (truthy_opt database_url) then ret None else
     let* conn :=
       perform DbConnect (db_connect B (get_or database_url [])) in
     ret (Some conn))
    (fun _ => ret None).

Definition check_apply_link_exists (apply_link : option str) : M bool :=
  if negb (truthy_opt apply_link) || opt_is apply_link (txt "N/A")
  then ret false else
  let link := get_or apply_link [] in
  try_except
    (let* conn := get_db_connection in
     match conn with
     | None => ret false
     | Some conn =>
         with_ (perform DbCursor (db_cursor B conn))
           (fun cursor => perform DbCursorExit (db_cursor_exit B cursor))
           (fun cursor =>
              perform (DbExecute link) (db_execute B cursor link);;
              let* row := perform DbFetchone (db_fetchone B cursor) in
              let* count :=
                match row with
                | Some n => ret n
                | None => raise (txt "'NoneType' object is not subscriptable")
                end in
              perform DbClose (db_close B conn);;
              if 0 <? count then ret true else ret false)
     end)
    (fun _ => ret false).

End Dedup.

(** ** Card field extraction and the per-page loop ([extract_job_data]) *)

(** [stats] *)
Record Stats := {
  total_job_cards_found : Z;
  skipped_duplicates : Z;
  skipped_extraction_errors : Z;
  successful_extractions : Z;
  gemini_processing_errors : Z;
  crawl4ai_errors : Z;
  browser_closed_early : bool
}.

Definition initial_stats : Stats :=
  {| total_job_cards_found := 0; skipped_duplicates := 0;
     skipped_extraction_errors := 0; successful_extractions := 0;
     gemini_processing_errors := 0; crawl4ai_errors := 0;
     browser_closed_early := false |}.

(** What a guarded read yields: a value, or the signal that the browser is
    gone (the source sets [browser_closed] and breaks). *)
Inductive guarded (A : Type) :=
| Value (a : A)
| Closed.
Arguments Value {A} a.
Arguments Closed {A}.

(** The test the handlers apply to [str(e).lower()]. *)
Definition is_browser_closed_error (msg : str) : bool :=
  let error_msg := lower msg in
  contains (txt "target page, context or browser has been closed") error_msg
  || contains (txt "browser has been closed") error_msg.

Inductive flow := Continue | Break.

Section Extraction.
Context (B : World).

Local Abbreviation M := (M B).

(** The handler shared by the field blocks: a closed browser stops the
    loop, any other exception gives [fallback]. *)
Definition on_error {A} (fallback : A) (msg : str) : M (guarded A) :=
  if is_browser_closed_error msg then ret Closed else ret (Value fallback).

(** [element.text_content().strip()]; [text_content()] may return [None]. *)
Definition stripped_text (element : H B) : M str :=
  let* text := perform ElTextContent (el_text_content B element) in
  match text with
  | Some t => ret (strip t)
  | None => raise (txt "'NoneType' object has no attribute 'strip'")
  end.

(** The block that reads one text field of a card: title (lines 963-977),
    location (1032-1046), posted date (1049-1063), description
    (1066-1080). *)
Definition extract_text_field (card : H B) (selector : str)
    : M (guarded str) :=
  if truthy selector then
    try_except
      (let* element :=
         perform (ElQuerySelector selector)
           (el_query_selector B card selector) in
       match element with
       | Some e => let* t := stripped_text e in ret (Value t)
       | None => ret (Value na)
       end)
      (on_error na)
  else ret (Value na).

Definition job_data := gmap string str.

(** The metadata block (lines 988-1024). *)
Definition extract_metadata (config : Config) (card : H B) (jd : job_data)
    : M (guarded job_data) :=
  if get_or (use_metadata_parsing config) false
     && truthy_opt (metadata_selector config)
  then
    let sel := get_or (metadata_selector config) [] in
    let failed :=
      <["metadata_raw" := na]>
        (<["posted_date" := na]> (<["location" := na]> jd)) in
    try_except
      (let* metadata_element :=
         perform (ElQuerySelector sel) (el_query_selector B card sel) in
       match metadata_element with
       | Some e =>
           let* metadata_text := stripped_text e in
           let jd' :=
             match parse_metadata metadata_text with
             | Meta4 l p x k =>
                 <["skills" := k]>
                   (<["experience" := x]>
                      (<["posted_date" := p]> (<["location" := l]> jd)))
             | Meta2 l p => <["posted_date" := p]> (<["location" := l]> jd)
             end in
           ret (Value (<["metadata_raw" := metadata_text]> jd'))
       | None => ret (Value failed)
       end)
      (on_error failed)
  else ret (Value jd).

(** The link block (lines 1087-1115): the [href], or [None]. *)
Definition extract_href (config : Config) (card : H B)
    : M (guarded (option str)) :=
  if truthy (link_selector config) then
    try_except
      (let* link_element :=
         perform (ElQuerySelector (link_selector config))
           (el_query_selector B card (link_selector config)) in
       match link_element with
       | Some e =>
           let* href :=
             perform (ElGetAttribute "href") (el_get_attribute B e "href") in
           ret (Value href)
       | None => ret (Value None)
       end)
      (on_error None)
  else
    try_except
      (let* href :=
         perform (ElGetAttribute "href") (el_get_attribute B card "href") in
       ret (Value href))
      (on_error None).

(** The apply link built from the [href] (lines 1121-1146); [urljoin] may
    raise. *)
Definition apply_link_of (config : Config) (href : option str) : M str :=
  if truthy_opt href then
    let href := get_or href [] in
    let joined : M str :=
      match urljoin_origin B (url config) href with
      | Ok u => ret u
      | Raise msg => raise msg
      end in
    let company := lower (get_or (company_name config) []) in
    if str_eqb company (txt "google") then
      if startswith (txt "/jobs") href
      then ret (txt "https://www.google.com/about/careers/applications"
                ++ href)
      else if startswith (txt "jobs/") href
      then ret (txt "https://www.google.com/about/careers/applications/"
                ++ href)
      else if startswith (txt "/") href then joined
      else ret href
    else if startswith (txt "/") href then joined
    else ret href
  else ret na.

(** [standard_fields], added only where the key is missing
    (lines 1196-1221). *)
Definition set_default (key : string) (value : str) (jd : job_data)
    : job_data :=
  match jd !! key with
  | Some _ => jd
  | None => <[key := value]> jd
  end.

Definition add_standard_fields (config : Config) (scraped_at : str)
    (jd : job_data) : job_data :=
  let with_standard :=
    fold_left (fun acc kv => set_default (fst kv) (snd kv) acc)
      [("salary", na); ("employment_type", na); ("experience_level", na);
       ("department", na); ("requirements", na); ("benefits", na);
       ("deadline", na); ("job_id", na); ("tags", na); ("skills", na);
       ("remote_work", na); ("scraped_at", scraped_at);
       ("source_url", url config)] jd in
  set_default "posted_date" na (set_default "description" na with_standard).

(** The local variables that live across cards. *)
Record LoopSt := {
  jobs : list (Job B);
  stats : Stats;
  browser_closed : bool
}.

Definition close_browser (ls : LoopSt) : LoopSt :=
  {| jobs := jobs ls; stats := stats ls; browser_closed := true |}.

Definition with_stats (ls : LoopSt) (s : Stats) : LoopSt :=
  {| jobs := jobs ls; stats := s; browser_closed := browser_closed ls |}.

(** After a guarded read: go on with the value, or leave the loop with
    [browser_closed = True]. *)
Definition or_break {A} (ls : LoopSt) (x : M (guarded A))
    (k : A -> M (flow * LoopSt)) : M (flow * LoopSt) :=
  let* r := x in
  match r with
  | Value a => k a
  | Closed => ret (Break, close_browser ls)
  end.

(** The part of the loop body from the dedup check on
    (lines 1148-1398). *)
Definition finish_card (config : Config) (ls : LoopSt) (jd : job_data)
    (apply_link : str) : M (flow * LoopSt) :=
  let* duplicate := check_apply_link_exists B (Some apply_link) in
  if duplicate then
    let s := stats ls in
    ret (Continue,
         with_stats ls
           {| total_job_cards_found := total_job_cards_found s;
              skipped_duplicates := skipped_duplicates s + 1;
              skipped_extraction_errors := skipped_extraction_errors s;
              successful_extractions := successful_extractions s;
              gemini_processing_errors := gemini_processing_errors s;
              crawl4ai_errors := crawl4ai_errors s;
              browser_closed_early := browser_closed_early s |})
  else
    let* details :=
      if truthy apply_link && negb (str_eqb apply_link (txt "N/A")) then
        try_except
          (let* info :=
             perform (CrawlDetails apply_link) (crawl_details B apply_link) in
           ret (info, 0))
          (fun _ => ret (na, 1))
      else ret (na, 0) in
    let jd := <["job_details_info" := fst details]> jd in
    let* scraped_at := read (now_isoformat B) in
    let jd := add_standard_fields config scraped_at jd in
    let* enriched := perform_total Enrich (enrich B jd) in
    let s := stats ls in
    ret (Continue,
         {| jobs := jobs ls ++ [fst enriched];
            stats :=
              {| total_job_cards_found := total_job_cards_found s;
                 skipped_duplicates := skipped_duplicates s;
                 skipped_extraction_errors := skipped_extraction_errors s;
                 successful_extractions := successful_extractions s + 1;
                 gemini_processing_errors :=
                   gemini_processing_errors s
                   + (if snd enriched then 1 else 0);
                 crawl4ai_errors := crawl4ai_errors s + snd details;
                 browser_closed_early := browser_closed_early s |};
            browser_closed := browser_closed ls |}).

(** The guarded part of the loop body (the outer [try], lines 951-1398). *)
Definition card_body (config : Config) (card : H B) (ls : LoopSt)
    : M (flow * LoopSt) :=
  let* alive :=
    try_except (perform PageUrl (page_url B);; ret true)
               (fun _ => ret false) in
  if negb alive then
    let s := stats ls in
    ret (Break,
         {| jobs := jobs ls;
            stats :=
              {| total_job_cards_found := total_job_cards_found s;
                 skipped_duplicates := skipped_duplicates s;
                 skipped_extraction_errors := skipped_extraction_errors s;
                 successful_extractions := successful_extractions s;
                 gemini_processing_errors := gemini_processing_errors s;
                 crawl4ai_errors := crawl4ai_errors s;
                 browser_closed_early := true |};
            browser_closed := true |})
  else
  or_break ls (extract_text_field card (title_selector config)) (fun title =>
  let jd : job_data := <["title" := title]> ∅ in
  let jd := <["company" := get_or (company_name config) na]> jd in
  or_break ls (extract_metadata config card jd) (fun jd =>
  or_break ls (extract_text_field card (location_selector config))
    (fun location =>
  let jd := <["location" := location]> jd in
  or_break ls (extract_text_field card (posted_selector config))
    (fun posted_date =>
  let jd := <["posted_date" := posted_date]> jd in
  or_break ls
    (extract_text_field card (get_or (description_selector config) []))
    (fun description =>
  let jd := <["description" := description]> jd in
  or_break ls (extract_href config card) (fun href =>
  let* apply_link := apply_link_of config href in
  let jd := <["apply_link" := apply_link]> jd in
  finish_card config ls jd apply_link)))))).

(** One pass through the body of the [for] loop, for card number [i]. *)
Definition process_card (config : Config) (i : nat) (card : H B)
    (ls : LoopSt) : M (flow * LoopSt) :=
  if browser_closed ls then ret (Break, ls) else
  (if (0 <? i)%nat && Nat.eqb (i mod 10) 0
   then perform_total DynamicCookies (fun w => (tt, dynamic_cookies B w))
   else ret tt);;
  if (max_jobs config <=? Z.of_nat (length (jobs ls)))
     && negb (opt_is (pagination_type config) (txt "infinite_scroll"))
  then ret (Break, ls)
  else
    try_except (card_body config card ls)
      (fun _ =>
         let s := stats ls in
         ret (Continue,
              with_stats ls
                {| total_job_cards_found := total_job_cards_found s;
                   skipped_duplicates := skipped_duplicates s;
                   skipped_extraction_errors :=
                     skipped_extraction_errors s + 1;
                   successful_extractions := successful_extractions s;
                   gemini_processing_errors := gemini_processing_errors s;
                   crawl4ai_errors := crawl4ai_errors s;
                   browser_closed_early := browser_closed_early s |})).

(** [for i, card in enumerate(job_cards)], from index [i] on. *)
Fixpoint card_loop (config : Config) (i : nat) (cards : list (H B))
    (ls : LoopSt) : M LoopSt :=
  match cards with
  | [] => ret ls
  | card :: rest =>
      let* r := process_card config i card ls in
      match fst r with
      | Break => ret (snd r)
      | Continue => card_loop config (S i) rest (snd r)
      end
  end.

Definition extract_job_data (config : Config) (existing_jobs : list (Job B))
    : M (list (Job B) * Stats) :=
  try_except
    (perform (WaitForSelector (card_selector config) 10000)
       (page_wait_for_selector B (card_selector config) 10000))
    (fun _ => ret tt);;
  let* found :=
    try_except
      (let* job_cards :=
         perform (QuerySelectorAll (card_selector config))
           (page_query_selector_all B (card_selector config)) in
       ret (Some job_cards))
      (fun _ => ret None) in
  match found with
  | None => ret (existing_jobs, initial_stats)
  | Some job_cards =>
      let s :=
        {| total_job_cards_found := Z.of_nat (length job_cards);
           skipped_duplicates := 0; skipped_extraction_errors := 0;
           successful_extractions := 0; gemini_processing_errors := 0;
           crawl4ai_errors := 0; browser_closed_early := false |} in
      let* ls :=
        card_loop config 0 job_cards
          {| jobs := existing_jobs; stats := s; browser_closed := false |} in
      ret (jobs ls, stats ls)
  end.

End Extraction.

(** ** A scripted world

    A world whose answers are given by tables: the browser state is the
    number of scrolls made so far, element handles are numbers, and the
    record appended for a card is its raw [job_data]. *)

Module Scripted.

Record Script := {
  s_url : res str;
  s_cards : nat -> res (list nat);          (* cards after [n] scrolls *)
  s_page_query : str -> res (option nat);
  s_query : nat -> str -> res (option nat);
  s_text : nat -> res (option str);
  s_attr : nat -> string -> res (option str);
  s_click : nat -> res unit;
  s_database_url : option str;
  s_count : str -> res (option Z)            (* rows with that apply link *)
}.

Definition world (sc : Script) : World :=
  {| W := nat * option str;      (* scrolls made, link of the last query *)
     H := nat;
     Conn := unit;
     Cursor := unit;
     Job := gmap string str;
     page_url := fun w => (s_url sc, w);
     page_goto := fun _ w => (Ok tt, w);
     page_query_selector := fun sel w => (s_page_query sc sel, w);
     page_query_selector_all := fun _ w => (s_cards sc (fst w), w);
     page_scroll_to_bottom := fun w => (Ok tt, (S (fst w), snd w));
     page_wait_for_timeout := fun _ w => (Ok tt, w);
     page_wait_for_selector := fun _ _ w => (Ok tt, w);
     el_query_selector := fun h sel w => (s_query sc h sel, w);
     el_text_content := fun h w => (s_text sc h, w);
     el_get_attribute := fun h name w => (s_attr sc h name, w);
     el_click := fun h w => (s_click sc h, w);
     env_database_url := fun _ => s_database_url sc;
     db_connect := fun _ w => (Ok tt, w);
     db_cursor := fun _ w => (Ok tt, w);
     db_execute := fun _ link w => (Ok tt, (fst w, Some link));
     db_fetchone := fun _ w =>
       (match snd w with
        | Some link => s_count sc link
        | None => Raise (txt "no results to fetch")
        end, w);
     db_close := fun _ w => (Ok tt, w);
     db_cursor_exit := fun _ w => (Ok tt, w);
     dynamic_cookies := fun w => w;
     crawl_details := fun _ w => (Ok (txt "details"), w);
     now_isoformat := fun _ => txt "2025-01-01T00:00:00";
     urljoin_origin := fun base href => Ok (base ++ href);
     enrich := fun jd w => ((jd, false), w) |}.

(** A page with [n] cards (handles [0 .. n-1]), a reachable database without
    rows, and elements without text or attributes. *)
Definition plain (n : nat) : Script :=
  {| s_url := Ok (txt "https://example.com/jobs");
     s_cards := fun _ => Ok (seq 0 n);
     s_page_query := fun _ => Ok None;
     s_query := fun _ _ => Ok None;
     s_text := fun _ => Ok None;
     s_attr := fun _ _ => Ok None;
     s_click := fun _ => Ok tt;
     s_database_url := Some (txt "postgres://db");
     s_count := fun _ => Ok (Some 0) |}.

Definition set_cards (f : nat -> res (list nat)) (sc : Script) : Script :=
  {| s_url := s_url sc; s_cards := f; s_page_query := s_page_query sc;
     s_query := s_query sc; s_text := s_text sc; s_attr := s_attr sc;
     s_click := s_click sc; s_database_url := s_database_url sc;
     s_count := s_count sc |}.

Definition set_page_query (f : str -> res (option nat)) (sc : Script)
    : Script :=
  {| s_url := s_url sc; s_cards := s_cards sc; s_page_query := f;
     s_query := s_query sc; s_text := s_text sc; s_attr := s_attr sc;
     s_click := s_click sc; s_database_url := s_database_url sc;
     s_count := s_count sc |}.

Definition set_query (f : nat -> str -> res (option nat)) (sc : Script)
    : Script :=
  {| s_url := s_url sc; s_cards := s_cards sc;
     s_page_query := s_page_query sc; s_query := f; s_text := s_text sc;
     s_attr := s_attr sc; s_click := s_click sc;
     s_database_url := s_database_url sc; s_count := s_count sc |}.

Definition set_text (f : nat -> res (option str)) (sc : Script) : Script :=
  {| s_url := s_url sc; s_cards := s_cards sc;
     s_page_query := s_page_query sc; s_query := s_query sc; s_text := f;
     s_attr := s_attr sc; s_click := s_click sc;
     s_database_url := s_database_url sc; s_count := s_count sc |}.

Definition set_attr (f : nat -> string -> res (option str)) (sc : Script)
    : Script :=
  {| s_url := s_url sc; s_cards := s_cards sc;
     s_page_query := s_page_query sc; s_query := s_query sc;
     s_text := s_text sc; s_attr := f; s_click := s_click sc;
     s_database_url := s_database_url sc; s_count := s_count sc |}.

Definition set_url (u : res str) (sc : Script) : Script :=
  {| s_url := u; s_cards := s_cards sc;
     s_page_query := s_page_query sc; s_query := s_query sc;
     s_text := s_text sc; s_attr := s_attr sc; s_click := s_click sc;
     s_database_url := s_database_url sc; s_count := s_count sc |}.

Definition set_database_url (u : option str) (sc : Script) : Script :=
  {| s_url := s_url sc; s_cards := s_cards sc;
     s_page_query := s_page_query sc; s_query := s_query sc;
     s_text := s_text sc; s_attr := s_attr sc; s_click := s_click sc;
     s_database_url := u; s_count := s_count sc |}.

Definition set_count (f : str -> res (option Z)) (sc : Script) : Script :=
  {| s_url := s_url sc; s_cards := s_cards sc;
     s_page_query := s_page_query sc; s_query := s_query sc;
     s_text := s_text sc; s_attr := s_attr sc; s_click := s_click sc;
     s_database_url := s_database_url sc; s_count := f |}.

Definition start : nat * option str := (0%nat, None).

(** The state a run starts from: no scroll made, empty call log. *)
Definition init (sc : Script) : St (world sc) := (start, []).

End Scripted.

(** A configuration with every selector empty and no limit reached. *)
Definition base_config : Config :=
  {| url := txt "https://example.com/jobs";
     card_selector := txt ".card";
     title_selector := [];
     location_selector := [];
     posted_selector := [];
     link_selector := [];
     max_jobs := 100000;
     description_selector := None;
     metadata_selector := None;
     use_metadata_parsing := None;
     company_name := None;
     pagination_type := None;
     pagination_selector := None;
     pagination_param := None;
     pagination_step := None;
     scroll_pause := None |}.

(** ** Scenarios used by the theorems *)

(** A page whose "next" control is [<a class="btn next" disabled>]: the
    attribute is present and its value is the empty string. *)
Definition disabled_button_page : Scripted.Script :=
  Scripted.set_page_query (fun _ => Ok (Some 7%nat))
    (Scripted.set_attr
       (fun _ name =>
          if String.eqb name "disabled" then Ok (Some [])
          else if String.eqb name "class" then Ok (Some (txt "btn next"))
          else Ok None)
       (Scripted.plain 1)).

Definition button_config : Config :=
  {| url := txt "https://example.com/jobs";
     card_selector := txt ".card";
     title_selector := txt ".title";
     location_selector := [];
     posted_selector := [];
     link_selector := [];
     max_jobs := 100000;
     description_selector := None;
     metadata_selector := None;
     use_metadata_parsing := None;
     company_name := None;
     pagination_type := Some (txt "button_click");
     pagination_selector := Some (txt ".next");
     pagination_param := None;
     pagination_step := None;
     scroll_pause := None |}.


(** Four cards: on card 0 the title element is found, with text
    ["  Engineer "] and a newline; on card 1 it is missing; on card 2 the
    query times out; on card 3 the element is found and reading its text
    fails.  On every later card the browser is gone. *)
Definition field_page : Scripted.Script :=
  Scripted.set_cards (fun _ => Ok (seq 0 6))
    (Scripted.set_query
       (fun h _ =>
          match h with
          | 0%nat => Ok (Some 10%nat)
          | 1%nat => Ok None
          | 2%nat => Raise (txt "Timeout 30000ms exceeded")
          | 3%nat => Ok (Some 11%nat)
          | _ => Raise (txt "Target page, context or browser has been closed")
          end)
       (Scripted.set_text
          (fun h =>
             match h with
             | 10%nat => Ok (Some (txt "  Engineer " ++ [nl]))
             | _ => Raise (txt "Element is not attached to the DOM")
             end)
          (Scripted.plain 6))).

(** Three cards; the browser is closed while the title of card 1 is read. *)
Definition closing_page : Scripted.Script :=
  Scripted.set_cards (fun _ => Ok (seq 0 3))
    (Scripted.set_query
       (fun h _ =>
          match h with
          | 1%nat =>
              Raise (txt "Target page, context or browser has been closed")
          | _ => Ok (Some (10 + h)%nat)
          end)
       (Scripted.set_text
          (fun h =>
             match h with
             | 10%nat => Ok (Some (txt "Engineer"))
             | _ => Ok (Some (txt "Analyst"))
             end)
          (Scripted.plain 3))).

Definition title_config : Config :=
  {| url := txt "https://example.com/jobs";
     card_selector := txt ".card";
     title_selector := txt ".title";
     location_selector := [];
     posted_selector := [];
     link_selector := [];
     max_jobs := 100000;
     description_selector := None;
     metadata_selector := None;
     use_metadata_parsing := None;
     company_name := None;
     pagination_type := None;
     pagination_selector := None;
     pagination_param := None;
     pagination_step := None;
     scroll_pause := None |}.

(** [config] with another [max_jobs] and another [pagination_type]. *)
Definition with_max_jobs (n : Z) (config : Config) : Config :=
  {| url := url config;
     card_selector := card_selector config;
     title_selector := title_selector config;
     location_selector := location_selector config;
     posted_selector := posted_selector config;
     link_selector := link_selector config;
     max_jobs := n;
     description_selector := description_selector config;
     metadata_selector := metadata_selector config;
     use_metadata_parsing := use_metadata_parsing config;
     company_name := company_name config;
     pagination_type := pagination_type config;
     pagination_selector := pagination_selector config;
     pagination_param := pagination_param config;
     pagination_step := pagination_step config;
     scroll_pause := scroll_pause config |}.

Definition with_pagination_type (t : option str) (config : Config) : Config :=
  {| url := url config;
     card_selector := card_selector config;
     title_selector := title_selector config;
     location_selector := location_selector config;
     posted_selector := posted_selector config;
     link_selector := link_selector config;
     max_jobs := max_jobs config;
     description_selector := description_selector config;
     metadata_selector := metadata_selector config;
     use_metadata_parsing := use_metadata_parsing config;
     company_name := company_name config;
     pagination_type := t;
     pagination_selector := pagination_selector config;
     pagination_param := pagination_param config;
     pagination_step := pagination_step config;
     scroll_pause := scroll_pause config |}.

(** The jobs and the statistics a run of [extract_job_data] returned. *)
Definition returned_jobs {B : World}
    (r : res (list (Job B) * Stats) * St B) : list (Job B) :=
  match fst r with
  | Ok (jobs, _) => jobs
  | Raise _ => []
  end.

Definition returned_stats {B : World}
    (r : res (list (Job B) * Stats) * St B) : option Stats :=
  match fst r with
  | Ok (_, stats) => Some stats
  | Raise _ => None
  end.

(** The number of scroll attempts in a call log. *)
Definition is_scroll (c : call) : bool :=
  match c with
  | ScrollToBottom => true
  | _ => false
  end.

Definition scrolls (log : list call) : nat :=
  length (List.filter is_scroll log).

(** A simulated page that shows [f n] cards after [n] scrolls. *)
Definition scroll_page (f : nat -> nat) : Scripted.Script :=
  Scripted.set_cards (fun n => Ok (seq 0 (f n))) (Scripted.plain 0).

(** ** Notions used to state what the patterns match *)

(** The literal [w] is a prefix of [s], up to case when [ic] is set. *)
Fixpoint lit_prefix (ic : bool) (w s : str) : bool :=
  match w, s with
  | [], _ => true
  | a :: w', b :: s' => cs_mem ic (CChar a) b && lit_prefix ic w' s'
  | _ :: _, [] => false
  end.

(** The longest prefix of characters satisfying [p], and the rest. *)
Fixpoint span (p : ascii -> bool) (s : str) : str * str :=
  match s with
  | x :: s' =>
      if p x then let (a, b) := span p s' in (x :: a, b) else ([], s)
  | [] => ([], [])
  end.


(** The text up to the first newline. *)
Definition first_line (s : str) : str :=
  fst (span (fun c => negb (Ascii.eqb c nl)) s).

(** [ls'] is reached from [ls] by appending records and counting each of at
    most [n] cards once: as extracted, as duplicate or as failed. *)
Definition accounted {B : World} (n : nat) (ls ls' : LoopSt B) : Prop :=
  exists new,
    jobs B ls' = jobs B ls ++ new
    /\ total_job_cards_found (stats B ls')
       = total_job_cards_found (stats B ls)
    /\ successful_extractions (stats B ls')
       = successful_extractions (stats B ls) + Z.of_nat (length new)
    /\ skipped_duplicates (stats B ls) <= skipped_duplicates (stats B ls')
    /\ skipped_extraction_errors (stats B ls)
       <= skipped_extraction_errors (stats B ls')
    /\ Z.of_nat (length new)
       + (skipped_duplicates (stats B ls')
          - skipped_duplicates (stats B ls))
       + (skipped_extraction_errors (stats B ls')
          - skipped_extraction_errors (stats B ls))
       <= Z.of_nat n
    /\ gemini_processing_errors (stats B ls)
       <= gemini_processing_errors (stats B ls')
       <= gemini_processing_errors (stats B ls) + Z.of_nat (length new)
    /\ crawl4ai_errors (stats B ls)
       <= crawl4ai_errors (stats B ls')
       <= crawl4ai_errors (stats B ls) + Z.of_nat (length new).

(** ** Aggregation of page statistics ([aggregate_stats]) *)

Definition aggregate_stats (overall_stats page_stats : Stats) : Stats :=
  {| total_job_cards_found :=
       total_job_cards_found overall_stats
       + total_job_cards_found page_stats;
     skipped_duplicates :=
       skipped_duplicates overall_stats + skipped_duplicates page_stats;
     skipped_extraction_errors :=
       skipped_extraction_errors overall_stats
       + skipped_extraction_errors page_stats;
     successful_extractions :=
       successful_extractions overall_stats
       + successful_extractions page_stats;
     gemini_processing_errors :=
       gemini_processing_errors overall_stats
       + gemini_processing_errors page_stats;
     crawl4ai_errors :=
       crawl4ai_errors overall_stats + crawl4ai_errors page_stats;
     browser_closed_early :=
       if browser_closed_early page_stats then true
       else browser_closed_early overall_stats |}.

(** Statistics in which every card is counted at most once. *)
Definition consistent (s : Stats) : Prop :=
  0 <= skipped_duplicates s
  /\ 0 <= skipped_extraction_errors s
  /\ 0 <= successful_extractions s
  /\ successful_extractions s + skipped_duplicates s
     + skipped_extraction_errors s <= total_job_cards_found s
  /\ 0 <= gemini_processing_errors s <= successful_extractions s
  /\ 0 <= crawl4ai_errors s <= successful_extractions s.

(** The keys of [standard_fields], then the two keys ensured after them. *)
Definition standard_keys : list string :=
  ["salary"; "employment_type"; "experience_level"; "department";
   "requirements"; "benefits"; "deadline"; "job_id"; "tags"; "skills";
   "remote_work"; "scraped_at"; "source_url"; "description"; "posted_date"].

(** ** What a field selector shows on a scripted page

    The text the selector [selector] yields for the card [h]: the stripped
    text of the first element it matches, ['N/A'] when the selector is
    empty, matches nothing, or the read fails. *)
Definition selector_text (sc : Scripted.Script) (h : nat) (selector : str)
    : str :=
  if truthy selector then
    match Scripted.s_query sc h selector with
    | Ok (Some e) =>
        match Scripted.s_text sc e with
        | Ok (Some t) => strip t
        | _ => na
        end
    | _ => na
    end
  else na.

(** A page whose cards carry a metadata line, and a configuration that
    parses it and has no location or posted-date selector. *)
Definition metadata_page : Scripted.Script :=
  Scripted.set_query (fun h _ => Ok (Some (10 + h)%nat))
    (Scripted.set_text
       (fun _ => Ok (Some (txt "Posted Jul 22, 2025Chennai, India")))
       (Scripted.plain 2)).

Definition metadata_config : Config :=
  {| url := txt "https://example.com/jobs";
     card_selector := txt ".card";
     title_selector := [];
     location_selector := [];
     posted_selector := [];
     link_selector := [];
     max_jobs := 100000;
     description_selector := None;
     metadata_selector := Some (txt ".meta");
     use_metadata_parsing := Some true;
     company_name := None;
     pagination_type := None;
     pagination_selector := None;
     pagination_param := None;
     pagination_step := None;
     scroll_pause := None |}.

(** ** The page loop of [scrape_single_company] (lines 1550-1644) *)

Section Company.
Context (B : World).

Local Abbreviation M := (M B).

(** The local variables the loop updates. *)
Record PageSt := {
  all_jobs : list (Job B);
  overall_stats : Stats;
  current_page : Z;
  errors : list str
}.

Definition with_error (ps : PageSt) (e : str) : PageSt :=
  {| all_jobs := all_jobs ps; overall_stats := overall_stats ps;
     current_page := current_page ps; errors := errors ps ++ [e] |}.

(** [f"Error on page {current_page + 1}: {str(e)}"] *)
Definition page_error (ps : PageSt) (msg : str) : str :=
  txt "Error on page " ++ str_of_Z (current_page ps + 1) ++ txt ": " ++ msg.

(** One pass through the body of the [while] loop (lines 1600-1644).  The
    handler of the outer [try] sees the locals as they are when the
    exception is raised, so it is written once for each place that can
    raise. *)
Definition page_step (config : Config) (max_pages : Z) (ps : PageSt)
    : M (flow * PageSt) :=
  let* alive :=
    try_except (perform PageUrl (page_url B);; ret true)
               (fun _ => ret false) in
  if negb alive then ret (Break, ps) else
  try_except
    (let* r := extract_job_data B config (all_jobs ps) in
     let ps :=
       {| all_jobs := fst r;
          overall_stats := aggregate_stats (overall_stats ps) (snd r);
          current_page := current_page ps; errors := errors ps |} in
     if max_jobs config <=? Z.of_nat (length (all_jobs ps))
     then ret (Break, ps)
     else
       let ps :=
         {| all_jobs := all_jobs ps; overall_stats := overall_stats ps;
            current_page := current_page ps + 1; errors := errors ps |} in
       if (current_page ps <? max_pages)
          && negb (opt_is (pagination_type config) (txt "none"))
       then
         try_except
           (let* pagination_success :=
              handle_pagination B config (current_page ps) in
            if pagination_success then ret (Continue, ps)
            else ret (Break, ps))
           (fun msg => ret (Break, with_error ps (page_error ps msg)))
       else ret (Break, ps))
    (fun msg => ret (Break, with_error ps (page_error ps msg))).

(** A pass that continues has moved to the next page. *)
Lemma page_step_advances (config : Config) (max_pages : Z) (ps ps' : PageSt)
    (st st' : St B) :
  page_step config max_pages ps st = (Ok (Continue, ps'), st') ->
  current_page ps' = current_page ps + 1.
Proof.
  unfold page_step. unfold bind at 1.
  destruct (try_except _ _ st) as [[alive|?] st0]; [|discriminate].
  destruct (negb alive); [unfold ret; intros Hr; inversion Hr|].
  unfold try_except at 1. unfold bind at 1.
  destruct (extract_job_data B config (all_jobs ps) st0) as [[r|?] st1];
    [|unfold ret; intros Hr; inversion Hr].
  cbn [all_jobs overall_stats current_page errors].
  destruct (max_jobs config <=? _); [unfold ret; intros Hr; inversion Hr|].
  destruct (_ && _); [|unfold ret; intros Hr; inversion Hr].
  unfold try_except, bind.
  destruct (handle_pagination _ _ _ _) as [[[]|?] st2];
    unfold ret; intros Hr; inversion Hr; reflexivity.
Qed.

(** A value together with the equation that names it. *)
Definition inspect {A} (a : A) : {b | a = b} := exist _ a eq_refl.

(** [while current_page < max_pages and len(all_jobs) < config['max_jobs']] *)
Equations? page_loop (config : Config) (max_pages : Z) (ps : PageSt)
    (st : St B) : res PageSt * St B
    by wf (Z.to_nat (max_pages - current_page ps)) lt :=
  page_loop config max_pages ps st
    with Z_lt_dec (current_page ps) max_pages,
         (Z.of_nat (length (all_jobs ps)) <? max_jobs config) => {
    | left _, true with inspect (page_step config max_pages ps st) => {
        | exist _ (Ok (Continue, ps'), st') _ =>
            page_loop config max_pages ps' st'
        | exist _ (Ok (Break, ps'), st') _ => (Ok ps', st')
        | exist _ (Raise msg, st') _ => (Raise msg, st') };
    | _, _ => (Ok ps, st) }.
Proof.
  match goal with
  | H : page_step _ _ _ _ = _ |- _ => apply page_step_advances in H; lia
  end.
Qed.

Definition initial_pages (errors : list str) : PageSt :=
  {| all_jobs := []; overall_stats := initial_stats; current_page := 0;
     errors := errors |}.

(** Lines 1550-1644: one pass after scrolling for [infinite_scroll], the
    page loop otherwise.  [max_pages] is [config.get('max_pages', 1)];
    [errors] holds what the navigation has reported. *)
Definition scrape_pages (config : Config) (max_pages : Z)
    (errors : list str) : M PageSt :=
  if opt_is (pagination_type config) (txt "infinite_scroll") then
    try_except
      (handle_infinite_scroll B config 0;;
       let* r := extract_job_data B config [] in
       ret {| all_jobs := fst r;
              overall_stats := aggregate_stats initial_stats (snd r);
              current_page := 1; errors := errors |})
      (fun msg =>
         let errors :=
           errors ++ [txt "Error during infinite scroll: " ++ msg] in
         try_except
           (let* r := extract_job_data B config [] in
            ret {| all_jobs := fst r;
                   overall_stats := aggregate_stats initial_stats (snd r);
                   current_page := 0; errors := errors |})
           (fun extract_error =>
              ret {| all_jobs := []; overall_stats := initial_stats;
                     current_page := 0;
                     errors :=
                       errors
                       ++ [txt "Job extraction failed: "
                           ++ extract_error] |}))
  else page_loop config max_pages (initial_pages errors).

End Company.

(** ** The markers of the four-value rule of [parse_metadata]

    The texts that, after whitespace, end the location in the pattern of
    line 820. *)
Definition location_markers : list str :=
  [txt "Full time"; txt "Experience:"; txt "Required Skill:"].

(** A character a one-word location may consist of. *)
Definition word_char (c : ascii) : bool :=
  negb (py_isspace c) && negb (Ascii.eqb c ",").

(** Two metadata lines of the four-value form. *)
Definition comma_line : str :=
  txt "Bengaluru, India Full time Experience: 10-12 years Required Skill: SAP ABAP".

Definition word_line : str :=
  txt "Bengaluru Full time Experience: 10-12 years Required Skill: SAP ABAP".

(** ** Cleaning a record for the enrichment prompt
       ([extract_and_clean_job_details]) *)

(** [s.split()]: the maximal runs of non-whitespace characters; [word]
    holds the run being read, last character first. *)
Fixpoint split_from (word : str) (s : str) : list str :=
  match s with
  | [] => match word with [] => [] | _ => [rev word] end
  | c :: s' =>
      if py_isspace c then
        match word with
        | [] => split_from [] s'
        | _ => rev word :: split_from [] s'
        end
      else split_from (c :: word) s'
  end.

Definition split (s : str) : list str := split_from [] s.

(** [sep.join(l)] *)
Fixpoint join (sep : str) (l : list str) : str :=
  match l with
  | [] => []
  | [a] => a
  | a :: l' => a ++ sep ++ join sep l'
  end.

Definition additional_fields : list string :=
  ["job_id"; "department"; "employment_type"; "experience_level";
   "remote_work"; "salary"; "deadline"; "requirements"; "benefits";
   "skills"].

Definition extract_and_clean_job_details (jd : job_data)
    (config : Config) : job_data :=
  let get (key : string) (default : str) : str :=
    get_or (jd !! key) default in
  let clean (value : str) : str :=
    if negb (str_eqb value na) then join (txt " ") (split value)
    else value in
  let cleaned_data : gmap string str :=
    <["source_url" := url config]>
      (<["job_details_info" := clean (get "job_details_info" na)]>
         (<["description" := clean (get "description" na)]>
            (<["apply_link" := get "apply_link" na]>
               (<["posted_date" := get "posted_date" na]>
                  (<["location" := get "location" na]>
                     (<["company" :=
                          get "company" (get_or (company_name config) na)]>
                        (<["title" := get "title" na]> ∅))))))) in
  fold_left
    (fun cleaned_data field =>
       match jd !! field with
       | Some value =>
           if negb (str_eqb value na) && negb (str_eqb value [])
           then <[field := value]> cleaned_data
           else cleaned_data
       | None => cleaned_data
       end)
    additional_fields cleaned_data.

(** The keys [cleaned_data] starts with. *)
Definition cleaned_keys : list string :=
  ["title"; "company"; "location"; "posted_date"; "apply_link";
   "description"; "job_details_info"; "source_url"].

(** [' '.join(s.split())] *)
Definition normalize_space (s : str) : str := join (txt " ") (split s).

Definition nonspace (c : ascii) : bool := negb (py_isspace c).

(** A word: not empty, no whitespace. *)
Definition is_word_text (w : str) : Prop :=
  w <> [] /\ forallb nonspace w = true.

(** A scraped record with ragged whitespace and parsed metadata. *)
Definition ragged_record : job_data :=
  <["description" := txt "  Build   things
 fast "]>
    (<["experience" := txt "10-12 years"]>
       (<["skills" := txt "SAP ABAP"]>
          (<["salary" := na]> (<["title" := txt "Engineer"]> ∅)))).

(** * Theorems *)

(** ** Strings *)

Lemma startswith_same_length (a b : str) :
  length a = length b -> startswith a b = true -> a = b.
Proof.
  revert b. induction a as [|x a IH]; intros [|y b] Hl Hs; simpl in *;
    try discriminate; auto.
  apply andb_true_iff in Hs as [Hx Hs].
  apply Ascii.eqb_eq in Hx. subst y. f_equal. apply IH; auto.
Qed.

Lemma startswith_refl (a : str) : startswith a a = true.
Proof.
  induction a as [|x a IH]; simpl; auto.
  rewrite Ascii.eqb_refl. exact IH.
Qed.

Lemma str_eqb_eq (a b : str) : str_eqb a b = true <-> a = b.
Proof.
  unfold str_eqb. split.
  - intros Hab. apply andb_true_iff in Hab as [Hl Hs].
    apply Nat.eqb_eq in Hl. apply startswith_same_length; auto.
  - intros ->. rewrite Nat.eqb_refl, startswith_refl. reflexivity.
Qed.

Lemma str_eqb_neq (a b : str) : str_eqb a b = false <-> a <> b.
Proof.
  split.
  - intros Hf Heq. apply str_eqb_eq in Heq. congruence.
  - intros Hne. destruct (str_eqb a b) eqn:E; auto.
    apply str_eqb_eq in E. contradiction.
Qed.

(** ** URL-parameter pagination: the next value *)

(** C10. In [handle_url_param_pagination] the offset family
    [(page_number - 1) * step + step] is used exactly for the parameter names
    [startrow] and [jobOffset]; for [page], [p] and every other name the next
    value is [page_number + 1], whatever the configured step. *)
Theorem next_value_offset_only_for_startrow_jobOffset
    (param : str) (step page_number : Z) :
  ((param = txt "startrow" \/ param = txt "jobOffset") ->
   next_value param step page_number = (page_number - 1) * step + step)
  /\ (param <> txt "startrow" -> param <> txt "jobOffset" ->
      next_value param step page_number = page_number + 1)
  /\ next_value (txt "page") step page_number = page_number + 1
  /\ next_value (txt "p") step page_number = page_number + 1.
Proof.
  repeat split.
  - intros [-> | ->]; reflexivity.
  - intros H1 H2. unfold next_value.
    apply str_eqb_neq in H1, H2. rewrite H1, H2.
    destruct (str_eqb param (txt "page")); [reflexivity|].
    destruct (str_eqb param (txt "p")); reflexivity.
Qed.

Lemma next_value_offset_only_for_startrow_jobOffset_witness :
  next_value (txt "jobOffset") 25 2 = (2 - 1) * 25 + 25
  /\ next_value (txt "offset") 25 2 = 2 + 1.
Proof.
  split.
  - apply (proj1 (next_value_offset_only_for_startrow_jobOffset
                    (txt "jobOffset") 25 2)).
    right. reflexivity.
  - apply (proj1 (proj2 (next_value_offset_only_for_startrow_jobOffset
                           (txt "offset") 25 2))); discriminate.
Defined.

(** ** Deduplication gate *)

Ltac run_monad :=
  unfold bind, try_except, perform, perform_total, ret, raise, read in *;
  cbn [fst snd] in *.

Ltac inv_pairs :=
  repeat match goal with
         | H : (_, _) = (_, _) |- _ => inversion H; subst; clear H
         | H : Ok _ = Ok _ |- _ => inversion H; subst; clear H
         | H : Some _ = Some _ |- _ => inversion H; subst; clear H
         end.

Section DedupFacts.
Context (B : World).

(** What a successful lookup with a positive count is, call by call. *)
Definition lookup_reports_duplicate (link : str) (w : W B) : Prop :=
  exists database_url conn cursor n w1 w2 w3 w4 w5 w6,
    env_database_url B w = Some database_url
    /\ database_url <> []
    /\ db_connect B database_url w = (Ok conn, w1)
    /\ db_cursor B conn w1 = (Ok cursor, w2)
    /\ db_execute B cursor link w2 = (Ok tt, w3)
    /\ db_fetchone B cursor w3 = (Ok (Some n), w4)
    /\ db_close B conn w4 = (Ok tt, w5)
    /\ db_cursor_exit B cursor w5 = (Ok tt, w6)
    /\ 0 < n.

Lemma truthy_nonempty (s : str) : truthy s = true -> s <> [].
Proof.
  destruct s; simpl; intros Ht; [discriminate Ht | intros E; discriminate E].
Qed.

(** C4. [check_apply_link_exists] never raises; it returns [False] for a
    link that is [None], empty or ['N/A'], and when no connection can be
    established; it returns [True] only when connecting, the cursor, the
    query, the fetch and the two closing calls all succeed and the count
    fetched is positive, so every failing call gives [False]. *)
Theorem check_apply_link_exists_fails_open
    (apply_link : option str) (st : St B) :
  (exists b st', check_apply_link_exists B apply_link st = (Ok b, st'))
  /\ ((apply_link = None \/ apply_link = Some []
       \/ apply_link = Some (txt "N/A")) ->
      check_apply_link_exists B apply_link st = (Ok false, st))
  /\ (fst (get_db_connection B st) = Ok None ->
      fst (check_apply_link_exists B apply_link st) = Ok false)
  /\ (fst (check_apply_link_exists B apply_link st) = Ok true ->
      exists link, apply_link = Some link /\ link <> []
                   /\ link <> txt "N/A"
                   /\ lookup_reports_duplicate link (fst st)).
Proof.
  destruct st as [w log].
  split; [|split; [|split]].
  - unfold check_apply_link_exists, with_, get_db_connection. run_monad.
    repeat case_match; eauto.
  - intros [-> | [-> | ->]]; reflexivity.
  - intros Hc. unfold check_apply_link_exists.
    destruct (negb _ || _); [reflexivity|].
    unfold try_except, bind.
    destruct (get_db_connection B (w, log)) as [[[c|]|e] st1];
      simpl in Hc; try discriminate.
    reflexivity.
  - unfold check_apply_link_exists, with_, get_db_connection. run_monad.
    destruct (negb (truthy_opt apply_link) || opt_is apply_link (txt "N/A"))
      eqn:Hg; [discriminate|].
    apply orb_false_iff in Hg as [Ht Hna].
    apply negb_false_iff in Ht.
    destruct apply_link as [link|]; [|discriminate]. simpl in Ht, Hna.
    apply truthy_nonempty in Ht. apply str_eqb_neq in Hna.
    intros Hc. exists link. repeat split; auto.
    unfold lookup_reports_duplicate.
    repeat case_match; simpl in *; try discriminate; inv_pairs.
    cbn [fst snd] in *.
    destruct (env_database_url B w) as [database_url|] eqn:Hu;
      [|discriminate].
    simpl in *.
    match goal with
    | Hn : negb (truthy _) = false |- _ =>
        apply negb_false_iff, truthy_nonempty in Hn
    end.
    repeat match goal with u : unit |- _ => destruct u end.
    exists database_url. do 9 eexists.
    repeat split; eauto. apply Z.ltb_lt. assumption.
Qed.

End DedupFacts.

(** A database that already holds every link twice, and one that cannot be
    reached. *)
Lemma check_apply_link_exists_fails_open_witness :
  let known := Scripted.set_count (fun _ => Ok (Some 2)) (Scripted.plain 0) in
  let down := Scripted.set_database_url None (Scripted.plain 0) in
  check_apply_link_exists (Scripted.world known) (Some (txt "N/A"))
    (Scripted.init known) = (Ok false, Scripted.init known)
  /\ fst (check_apply_link_exists (Scripted.world down)
            (Some (txt "https://example.com/job/1")) (Scripted.init down))
     = Ok false
  /\ exists link,
       Some (txt "https://example.com/job/1") = Some link /\ link <> []
       /\ link <> txt "N/A"
       /\ lookup_reports_duplicate (Scripted.world known) link
            (fst (Scripted.init known)).
Proof.
  intros known down. split; [|split].
  - apply (check_apply_link_exists_fails_open (Scripted.world known)).
    right. right. reflexivity.
  - apply (check_apply_link_exists_fails_open (Scripted.world down)).
    reflexivity.
  - apply (check_apply_link_exists_fails_open (Scripted.world known)).
    reflexivity.
Defined.

(** ** Button pagination *)

Section ButtonFacts.
Context (B : World).

(** [handle_button_pagination] never raises. *)
Lemma handle_button_pagination_total (config : Config) (current_page : Z)
    (st : St B) :
  exists b st', handle_button_pagination B config current_page st = (Ok b, st').
Proof.
  unfold handle_button_pagination. run_monad.
  repeat case_match; eauto.
Qed.

(** A [disabled] attribute with a non-empty value halts pagination: the
    result is [False] and the only calls are the query and the read of the
    attribute. *)
Lemma handle_button_pagination_disabled_value (config : Config)
    (current_page : Z) (w w1 w2 : W B) (log : list call) (sel v : str)
    (button : H B) :
  pagination_selector config = Some sel -> sel <> [] ->
  page_query_selector B sel w = (Ok (Some button), w1) ->
  el_get_attribute B button "disabled" w1 = (Ok (Some v), w2) ->
  v <> [] ->
  handle_button_pagination B config current_page (w, log)
  = (Ok false, (w2, log ++ [QuerySelector sel] ++ [ElGetAttribute "disabled"])).
Proof.
  intros Hsel Hne Hq Hd Hv. unfold handle_button_pagination. run_monad.
  rewrite Hsel. simpl. destruct sel; [contradiction|]. simpl.
  rewrite Hq. simpl. rewrite Hd. simpl. destruct v; [contradiction|]. simpl.
  rewrite <- app_assoc. reflexivity.
Qed.

(** A class attribute that contains [disabled] halts pagination. *)
Lemma handle_button_pagination_disabled_class (config : Config)
    (current_page : Z) (w w1 w2 w3 : W B) (log : list call) (sel cls : str)
    (d : option str) (button : H B) :
  pagination_selector config = Some sel -> sel <> [] ->
  page_query_selector B sel w = (Ok (Some button), w1) ->
  el_get_attribute B button "disabled" w1 = (Ok d, w2) ->
  truthy_opt d = false ->
  el_get_attribute B button "class" w2 = (Ok (Some cls), w3) ->
  contains (txt "disabled") cls = true ->
  fst (handle_button_pagination B config current_page (w, log)) = Ok false
  /\ ~ In ElClick
       (skipn (length log)
          (snd (snd (handle_button_pagination B config current_page
                       (w, log))))).
Proof.
  intros Hsel Hne Hq Hd Ht Hc Hin. unfold handle_button_pagination. run_monad.
  rewrite Hsel. simpl. destruct sel; [contradiction|]. simpl.
  rewrite Hq. cbn [fst snd]. rewrite Hd. cbn [fst snd]. rewrite Ht.
  cbn [fst snd]. rewrite Hc. cbn [fst snd get_or]. simpl in Hin. rewrite Hin.
  cbn [fst snd]. split; [reflexivity|].
  rewrite <- !app_assoc, drop_app_length. simpl.
  intros [E | [E | [E | []]]]; discriminate.
Qed.

End ButtonFacts.

(** C7. The code at the failing input: the located button carries a
    [disabled] attribute (with the empty value that a bare [disabled] has),
    and yet [handle_button_pagination] clicks it and returns [True]. *)
Theorem handle_button_pagination_clicks_bare_disabled :
  let sc := disabled_button_page in
  let r := handle_button_pagination (Scripted.world sc) button_config 1
             (Scripted.init sc) in
  Scripted.s_page_query sc (txt ".next") = Ok (Some 7%nat)
  /\ Scripted.s_attr sc 7%nat "disabled" = Ok (Some [])
  /\ fst r = Ok true
  /\ snd (snd r)
     = [QuerySelector (txt ".next"); ElGetAttribute "disabled";
        ElGetAttribute "class"; ElClick;
        WaitForSelector (txt ".card") 10000; WaitForTimeout 1000].
Proof. repeat split. Qed.

(** ** Trimming *)

Lemma lstrip_by_spec (p : ascii -> bool) (s : str) :
  exists a, s = a ++ lstrip_by p s /\ forallb p a = true
            /\ match lstrip_by p s with
               | [] => True
               | c :: _ => p c = false
               end.
Proof.
  induction s as [|x s IH]; simpl.
  - exists []. auto.
  - destruct (p x) eqn:Hx.
    + destruct IH as (a & Hs & Ha & Hh).
      exists (x :: a). simpl. rewrite Hx, Ha. repeat split; auto.
      f_equal. exact Hs.
    + exists []. simpl. auto.
Qed.

Lemma rstrip_by_spec (p : ascii -> bool) (s : str) :
  exists b, s = rstrip_by p s ++ b /\ forallb p b = true
            /\ match rev (rstrip_by p s) with
               | [] => True
               | c :: _ => p c = false
               end.
Proof.
  unfold rstrip_by. destruct (lstrip_by_spec p (rev s)) as (a & Hs & Ha & Hh).
  exists (rev a). rewrite rev_involutive. repeat split; auto.
  - rewrite <- rev_app_distr, <- Hs, rev_involutive. reflexivity.
  - rewrite forallb_forall in *. intros x Hx. apply Ha.
    apply in_rev. exact Hx.
Qed.

(** [strip_by p s] is [s] without its longest prefix and suffix of
    characters satisfying [p]. *)
Lemma strip_by_spec (p : ascii -> bool) (s : str) :
  exists a b, s = a ++ strip_by p s ++ b
              /\ forallb p a = true /\ forallb p b = true
              /\ match strip_by p s with
                 | [] => True
                 | c :: _ => p c = false
                 end
              /\ match rev (strip_by p s) with
                 | [] => True
                 | c :: _ => p c = false
                 end.
Proof.
  unfold strip_by.
  destruct (lstrip_by_spec p s) as (a & Hs & Ha & Hh).
  destruct (rstrip_by_spec p (lstrip_by p s)) as (b & Ht & Hb & Hl).
  exists a, b. repeat split; auto.
  - rewrite <- Ht. exact Hs.
  - destruct (rstrip_by p (lstrip_by p s)) as [|c t] eqn:E; [exact I|].
    rewrite Ht in Hh. exact Hh.
Qed.

(** ** Card field extraction *)

Section FieldFacts.
Context (B : World).


End FieldFacts.


(** ** The per-page loop *)

Section LoopFacts.
Context (B : World).

(** The loop body never raises. *)
Lemma process_card_total (config : Config) (i : nat) (card : H B)
    (ls : LoopSt B) (st : St B) :
  exists r st', process_card B config i card ls st = (Ok r, st').
Proof.
  unfold process_card. run_monad.
  repeat case_match; try congruence; eauto.
Qed.

Lemma card_loop_total (config : Config) (cards : list (H B)) :
  forall i ls st, exists ls' st',
    card_loop B config i cards ls st = (Ok ls', st').
Proof.
  induction cards as [|card rest IH]; intros i ls st; simpl.
  - unfold ret. eauto.
  - unfold bind.
    destruct (process_card_total config i card ls st) as (r & st1 & ->).
    destruct (fst r); [apply IH | unfold ret; eauto].
Qed.

(** [extract_job_data] never raises. *)
Lemma extract_job_data_total (config : Config) (existing : list (Job B))
    (st : St B) :
  exists jobs stats st',
    extract_job_data B config existing st = (Ok (jobs, stats), st').
Proof.
  unfold extract_job_data. unfold bind at 1 2.
  destruct (try_except _ _ st) as [[[]|msg] st1] eqn:E1.
  2:{ unfold try_except in E1. destruct (perform _ _ st) as [[|] ?];
      discriminate. }
  destruct (try_except _ _ st1) as [[found|msg] st2] eqn:E2.
  2:{ unfold try_except, bind in E2.
      destruct (perform _ _ st1) as [[|] ?]; discriminate. }
  destruct found as [cards|]; [|unfold ret; eauto].
  unfold bind.
  match goal with
  | |- context [card_loop B config 0 cards ?l st2] =>
      destruct (card_loop_total config cards 0 l st2) as (ls' & st3 & ->)
  end.
  unfold ret. eauto.
Qed.

End LoopFacts.

Section LoopBound.
Context (B : World).

(** One pass through the loop body leaves [jobs] alone or appends one
    record. *)
Definition grows_by_at_most_one (ls ls' : LoopSt B) : Prop :=
  jobs B ls' = jobs B ls \/ exists j, jobs B ls' = jobs B ls ++ [j].

Lemma finish_card_grows (config : Config) (ls : LoopSt B) (jd : job_data)
    (link : str) (st st' : St B) (r : flow * LoopSt B) :
  finish_card B config ls jd link st = (Ok r, st') ->
  grows_by_at_most_one ls (snd r).
Proof.
  unfold finish_card, grows_by_at_most_one. run_monad. intros Hr.
  repeat case_match; try congruence; inv_pairs; simpl; eauto.
Qed.

Lemma card_body_grows (config : Config) (card : H B) (ls : LoopSt B)
    (st st' : St B) (r : flow * LoopSt B) :
  card_body B config card ls st = (Ok r, st') ->
  grows_by_at_most_one ls (snd r).
Proof.
  unfold card_body, or_break. run_monad. intros Hr.
  repeat case_match; try congruence; inv_pairs;
    try (left; reflexivity);
    try (eapply finish_card_grows; eassumption).
Qed.

Lemma process_card_grows (config : Config) (i : nat) (card : H B)
    (ls : LoopSt B) (st st' : St B) (r : flow * LoopSt B) :
  process_card B config i card ls st = (Ok r, st') ->
  grows_by_at_most_one ls (snd r).
Proof.
  unfold process_card. run_monad. intros Hr.
  repeat case_match; try congruence; inv_pairs;
    try (left; reflexivity);
    try (eapply card_body_grows; eassumption).
Qed.

(** With the limit reached and a pagination type other than
    [infinite_scroll], the loop body breaks at once: no page, element or
    database call is made for the card. *)
Lemma process_card_stops_at_max_jobs (config : Config) (i : nat)
    (card : H B) (ls : LoopSt B) (st : St B) :
  opt_is (pagination_type config) (txt "infinite_scroll") = false ->
  max_jobs config <= Z.of_nat (length (jobs B ls)) ->
  fst (process_card B config i card ls st) = Ok (Break, ls)
  /\ forall c, In c (skipn (length (snd st))
                       (snd (snd (process_card B config i card ls st)))) ->
               c = DynamicCookies.
Proof.
  intros Hp Hmax. unfold process_card. run_monad.
  apply Z.leb_le in Hmax. rewrite Hmax, Hp. cbn [negb andb].
  destruct (browser_closed B ls).
  - cbn [fst snd]. split; [reflexivity|]. rewrite drop_all. intros c [].
  - destruct ((0 <? i)%nat && Nat.eqb (i mod 10) 0); cbn [fst snd].
    + split; [reflexivity|]. rewrite drop_app_length.
      intros c [<- | []]. reflexivity.
    + split; [reflexivity|]. rewrite drop_all. intros c [].
Qed.

Lemma process_card_bound (config : Config) (i : nat) (card : H B)
    (ls : LoopSt B) (st st' : St B) (r : flow * LoopSt B) (bound : Z) :
  opt_is (pagination_type config) (txt "infinite_scroll") = false ->
  max_jobs config <= bound ->
  Z.of_nat (length (jobs B ls)) <= bound ->
  process_card B config i card ls st = (Ok r, st') ->
  Z.of_nat (length (jobs B (snd r))) <= bound.
Proof.
  intros Hp Hb Hl Hr.
  destruct (Z_le_gt_dec (max_jobs config) (Z.of_nat (length (jobs B ls))))
    as [Hge | Hlt].
  - destruct (process_card_stops_at_max_jobs config i card ls st Hp Hge)
      as [Hs _].
    rewrite Hr in Hs. simpl in Hs. inversion Hs. subst r. exact Hl.
  - destruct (process_card_grows _ _ _ _ _ _ _ Hr) as [-> | [j ->]];
      [exact Hl|].
    rewrite length_app. simpl. lia.
Qed.

Lemma card_loop_bound (config : Config) (bound : Z) (cards : list (H B)) :
  opt_is (pagination_type config) (txt "infinite_scroll") = false ->
  max_jobs config <= bound ->
  forall i ls st ls' st',
    Z.of_nat (length (jobs B ls)) <= bound ->
    card_loop B config i cards ls st = (Ok ls', st') ->
    Z.of_nat (length (jobs B ls')) <= bound.
Proof.
  intros Hp Hb.
  induction cards as [|card rest IH]; intros i ls st ls' st' Hl Hr;
    simpl in Hr.
  - unfold ret in Hr. inversion Hr. subst. exact Hl.
  - unfold bind in Hr.
    destruct (process_card B config i card ls st) as [[r|msg] st1] eqn:E;
      [|discriminate].
    pose proof (process_card_bound _ _ _ _ _ _ _ _ Hp Hb Hl E) as Hl1.
    destruct (fst r).
    + eapply IH; eassumption.
    + unfold ret in Hr. inversion Hr. subst. exact Hl1.
Qed.

Lemma extract_job_data_bound (config : Config) (existing : list (Job B))
    (st : St B) (bound : Z) :
  opt_is (pagination_type config) (txt "infinite_scroll") = false ->
  max_jobs config <= bound ->
  Z.of_nat (length existing) <= bound ->
  Z.of_nat (length (returned_jobs (extract_job_data B config existing st)))
  <= bound.
Proof.
  intros Hp Hb Hl. unfold returned_jobs, extract_job_data.
  unfold bind at 1 2.
  destruct (try_except _ _ st) as [[[]|msg] st1]; [|simpl; lia].
  destruct (try_except _ _ st1) as [[found|msg] st2]; [|simpl; lia].
  destruct found as [cards|]; [|exact Hl].
  unfold bind.
  match goal with
  | |- context [card_loop B config 0 cards ?l st2] =>
      destruct (card_loop B config 0 cards l st2) as [[ls'|msg] st3] eqn:E
  end; [|simpl; lia].
  simpl. eapply card_loop_bound; [exact Hp | exact Hb | | exact E].
  exact Hl.
Qed.

(** With [infinite_scroll], [max_jobs] is never read. *)
Lemma card_loop_ignores_max_jobs (config : Config) (n : Z)
    (cards : list (H B)) :
  opt_is (pagination_type config) (txt "infinite_scroll") = true ->
  forall i ls st,
    card_loop B (with_max_jobs n config) i cards ls st
    = card_loop B config i cards ls st.
Proof.
  intros Hp. induction cards as [|card rest IH]; intros i ls st; simpl.
  - reflexivity.
  - unfold bind.
    assert (Hpc : process_card B (with_max_jobs n config) i card ls st
                  = process_card B config i card ls st).
    { unfold process_card. cbn [pagination_type max_jobs with_max_jobs].
      rewrite Hp. cbn [negb]. rewrite !andb_false_r.
      unfold card_body, extract_metadata, extract_href, apply_link_of,
        finish_card, add_standard_fields.
      cbn [url card_selector title_selector location_selector
           posted_selector link_selector description_selector
           metadata_selector use_metadata_parsing company_name
           with_max_jobs].
      reflexivity. }
    rewrite Hpc.
    destruct (process_card B config i card ls st) as [[r|msg] st1];
      [|reflexivity].
    destruct (fst r); [apply IH | reflexivity].
Qed.

End LoopBound.

(** C9. For a pagination type other than [infinite_scroll] the loop body
    breaks, before any work on the card, once [jobs] holds [max_jobs]
    records, so a list that starts within the limit stays within it.  For
    [infinite_scroll] the limit is never read: the run is the same for every
    [max_jobs], and three cards give three records with [max_jobs = 1]. *)
Theorem max_jobs_enforced_except_for_infinite_scroll
    (B : World) (config : Config) (existing : list (Job B)) (st : St B) :
  (opt_is (pagination_type config) (txt "infinite_scroll") = false ->
   (forall i card ls st1,
      max_jobs config <= Z.of_nat (length (jobs B ls)) ->
      fst (process_card B config i card ls st1) = Ok (Break, ls))
   /\ (Z.of_nat (length existing) <= max_jobs config ->
       Z.of_nat
         (length (returned_jobs (extract_job_data B config existing st)))
       <= max_jobs config))
  /\ (opt_is (pagination_type config) (txt "infinite_scroll") = true ->
      forall n,
        extract_job_data B (with_max_jobs n config) existing st
        = extract_job_data B config existing st)
  /\ (let sc := Scripted.plain 3 in
      let scroll_config :=
        with_pagination_type (Some (txt "infinite_scroll"))
          (with_max_jobs 1 base_config) in
      max_jobs scroll_config = 1
      /\ length (returned_jobs
                   (extract_job_data (Scripted.world sc) scroll_config []
                      (Scripted.init sc))) = 3%nat).
Proof.
  split; [|split].
  - intros Hp. split.
    + intros i card ls st1 Hmax.
      apply (process_card_stops_at_max_jobs B config i card ls st1 Hp Hmax).
    + intros Hl. apply extract_job_data_bound; [exact Hp | lia | exact Hl].
  - intros Hp n. unfold extract_job_data.
    cbn [card_selector with_max_jobs]. unfold bind at 1 2 5 6.
    destruct (try_except _ _ st) as [[[]|msg] st1]; [|reflexivity].
    destruct (try_except _ _ st1) as [[found|msg] st2]; [|reflexivity].
    destruct found as [cards|]; [|reflexivity].
    unfold bind. rewrite (card_loop_ignores_max_jobs B config n cards Hp).
    reflexivity.
  - split; reflexivity.
Qed.

Lemma max_jobs_enforced_except_for_infinite_scroll_witness :
  let sc := Scripted.plain 3 in
  let capped := with_max_jobs 1 base_config in
  let scroll_config :=
    with_pagination_type (Some (txt "infinite_scroll")) base_config in
  Z.of_nat
    (length (returned_jobs
               (extract_job_data (Scripted.world sc) capped []
                  (Scripted.init sc)))) <= 1
  /\ extract_job_data (Scripted.world sc) (with_max_jobs 1 scroll_config) []
       (Scripted.init sc)
     = extract_job_data (Scripted.world sc) scroll_config []
         (Scripted.init sc).
Proof.
  intros sc capped scroll_config. split.
  - apply (proj1 (max_jobs_enforced_except_for_infinite_scroll
                    (Scripted.world sc) capped [] (Scripted.init sc))).
    + reflexivity.
    + simpl. lia.
  - apply (proj1 (proj2 (max_jobs_enforced_except_for_infinite_scroll
                           (Scripted.world sc) scroll_config []
                           (Scripted.init sc)))).
    reflexivity.
Defined.

(** ** Closed browser during field extraction *)

Section ClosedFacts.
Context (B : World).

(** When the query for the title raises a closed-browser error, the loop
    body breaks with [browser_closed = True] and leaves [jobs] and [stats]
    as they were: no record is appended, and [browser_closed_early] is not
    set. *)
Lemma card_body_closed_in_title (config : Config) (card : H B)
    (ls : LoopSt B) (w w1 w2 : W B) (log : list call) (u msg : str) :
  page_url B w = (Ok u, w1) ->
  title_selector config <> [] ->
  el_query_selector B card (title_selector config) w1 = (Raise msg, w2) ->
  is_browser_closed_error msg = true ->
  card_body B config card ls (w, log)
  = (Ok (Break, close_browser B ls),
     (w2, log ++ [PageUrl] ++ [ElQuerySelector (title_selector config)])).
Proof.
  intros Hu Hne Hq Hm.
  unfold card_body, or_break, extract_text_field, on_error. run_monad.
  rewrite Hu. cbn [fst snd negb].
  destruct (title_selector config) as [|x sel]; [contradiction|].
  cbn [truthy fst snd]. rewrite Hq, Hm. rewrite <- app_assoc. reflexivity.
Qed.

(** Once the loop body breaks, the loop returns the state of that moment:
    the records of the earlier cards stay, the later cards are not
    visited. *)
Lemma card_loop_break (config : Config) (i : nat) (card : H B)
    (rest : list (H B)) (ls ls' : LoopSt B) (st st' : St B) :
  process_card B config i card ls st = (Ok (Break, ls'), st') ->
  card_loop B config i (card :: rest) ls st = (Ok ls', st').
Proof.
  intros Hp. simpl. unfold bind. rewrite Hp. reflexivity.
Qed.

End ClosedFacts.

(** C1. The code at the failing input: three cards, the browser is closed
    while the title of card 1 is read.  The loop stops there: the record of
    card 0 is returned, none for cards 1 and 2, no call follows the failing
    query; but the returned [browser_closed_early] is [False]. *)
Theorem extract_job_data_closed_in_title_leaves_flag_unset :
  let sc := closing_page in
  let r := extract_job_data (Scripted.world sc) title_config []
             (Scripted.init sc) in
  Scripted.s_query sc 1%nat (txt ".title")
  = Raise (txt "Target page, context or browser has been closed")
  /\ is_browser_closed_error
       (txt "Target page, context or browser has been closed") = true
  /\ map (fun j : gmap string str => j !! "title") (returned_jobs r)
     = [Some (txt "Engineer")]
  /\ snd (snd r)
     = [WaitForSelector (txt ".card") 10000; QuerySelectorAll (txt ".card");
        PageUrl; ElQuerySelector (txt ".title"); ElTextContent;
        ElGetAttribute "href"; Enrich;
        PageUrl; ElQuerySelector (txt ".title")]
  /\ option_map browser_closed_early (returned_stats r) = Some false.
Proof. repeat split. Qed.

(** ** Infinite scroll *)

Section ScrollFacts.
Context (B : World).

Lemma scroll_loop_eq (config : Config) (c t : nat) (st : St B) :
  scroll_loop B config c t st
  = if (c <? max_consecutive_attempts)%nat && (t <? max_scrolls)%nat
    then match scroll_once B config st with
         | (Ok loaded, st') =>
             scroll_loop B config (if loaded then 0%nat else S c) (S t) st'
         | (Raise msg, st') => (Raise msg, st')
         end
    else (Ok (c, t), st).
Proof.
  simp scroll_loop.
  destruct (c <? max_consecutive_attempts)%nat; simpl;
  destruct (lt_dec t max_scrolls) as [Hlt | Hge]; simpl; try reflexivity.
  - apply Nat.ltb_lt in Hlt as Hb. rewrite Hb.
    destruct (scroll_once B config st) as [[loaded | msg] st']; reflexivity.
  - apply Nat.ltb_nlt in Hge. rewrite Hge. reflexivity.
Qed.

(** The loop does not run once a limit is reached. *)
Lemma scroll_loop_stops (config : Config) (c t : nat) (st : St B) :
  (max_consecutive_attempts <= c \/ max_scrolls <= t)%nat ->
  scroll_loop B config c t st = (Ok (c, t), st).
Proof.
  intros Hstop. rewrite scroll_loop_eq.
  destruct (c <? max_consecutive_attempts)%nat eqn:Hc;
    destruct (t <? max_scrolls)%nat eqn:Ht; try reflexivity.
  apply Nat.ltb_lt in Hc, Ht. lia.
Qed.

Lemma scrolls_app (l1 l2 : list call) :
  scrolls (l1 ++ l2) = (scrolls l1 + scrolls l2)%nat.
Proof. unfold scrolls. rewrite List.filter_app, length_app. reflexivity. Qed.

(** One pass through the loop body makes one scroll attempt, or none when
    the count before it raises. *)
Lemma scroll_once_scrolls (config : Config) (st st' : St B)
    (r : res bool) :
  scroll_once B config st = (r, st') ->
  (scrolls (snd st') <= scrolls (snd st) + 1)%nat
  /\ (forall loaded, r = Ok loaded ->
      scrolls (snd st') = (scrolls (snd st) + 1)%nat).
Proof.
  unfold scroll_once, count_cards. run_monad. intros Hr.
  repeat case_match; try congruence; inv_pairs; cbn [snd];
    rewrite ?scrolls_app; cbn; (split; [|intros; try discriminate]); lia.
Qed.

(** The loop makes at most [max_scrolls - t] scroll attempts; when it
    returns, it made exactly [t' - t] and one of the two limits is
    reached. *)
Lemma scroll_loop_bounded (config : Config) (n : nat) :
  forall c t st r st',
    (max_scrolls - t <= n)%nat ->
    scroll_loop B config c t st = (r, st') ->
    (scrolls (snd st') <= scrolls (snd st) + (max_scrolls - t))%nat
    /\ (forall c' t', r = Ok (c', t') ->
        (t <= max_scrolls -> t' <= max_scrolls)%nat
        /\ scrolls (snd st') = (scrolls (snd st) + (t' - t))%nat
        /\ (t <= t')%nat
        /\ (max_consecutive_attempts <= c' \/ max_scrolls <= t')%nat).
Proof.
  induction n as [|n IH]; intros c t st r st' Hn Hr;
    rewrite scroll_loop_eq in Hr.
  - assert (Ht : (t <? max_scrolls)%nat = false)
      by (apply Nat.ltb_ge; lia).
    rewrite Ht, andb_false_r in Hr. inversion Hr. subst.
    split; [lia|]. intros c' t' E. inversion E. subst.
    apply Nat.ltb_ge in Ht. repeat split; try lia.
  - destruct ((c <? max_consecutive_attempts)%nat && (t <? max_scrolls)%nat)
      eqn:Hg.
    + apply andb_true_iff in Hg as [Hc Ht]. apply Nat.ltb_lt in Hc, Ht.
      destruct (scroll_once B config st) as [[loaded | msg] st1] eqn:E1.
      * destruct (scroll_once_scrolls _ _ _ _ E1) as [_ H1].
        specialize (H1 loaded eq_refl).
        destruct (IH _ (S t) st1 r st' ltac:(lia) Hr) as [Hle Hok].
        split; [lia|]. intros c' t' E. destruct (Hok c' t' E) as (Ha & Hb & Hd & He).
        repeat split; lia.
      * inversion Hr. subst.
        destruct (scroll_once_scrolls _ _ _ _ E1) as [H1 _].
        split; [lia|]. intros c' t' E. discriminate.
    + inversion Hr. subst. split; [lia|]. intros c' t' E.
      inversion E. subst. apply andb_false_iff in Hg.
      repeat split; try lia.
      destruct Hg as [Hg | Hg]; apply Nat.ltb_ge in Hg; lia.
Qed.

End ScrollFacts.

Section ScrollTotal.
Context (B : World).

Lemma count_cards_scrolls (sel : str) (st st' : St B) (r : res nat) :
  count_cards B sel st = (r, st') -> scrolls (snd st') = scrolls (snd st).
Proof.
  unfold count_cards. run_monad. intros Hr.
  repeat case_match; inv_pairs; cbn [snd]; rewrite scrolls_app; cbn; lia.
Qed.

(** [handle_infinite_scroll] returns, without raising, after at most
    [max_scrolls] scroll attempts. *)
Lemma handle_infinite_scroll_bounded (config : Config) (current_page : Z)
    (st : St B) :
  exists b st',
    handle_infinite_scroll B config current_page st = (Ok b, st')
    /\ (scrolls (snd st') <= scrolls (snd st) + max_scrolls)%nat.
Proof.
  unfold handle_infinite_scroll, try_except, bind.
  destruct (count_cards B (card_selector config) st) as [[n0|msg] st1] eqn:E0.
  2:{ unfold ret. eexists _, _. split; [reflexivity|].
      rewrite (count_cards_scrolls _ _ _ _ E0). lia. }
  apply count_cards_scrolls in E0.
  destruct (scroll_loop B config 0 0 st1) as [[[c' t']|msg] st2] eqn:E1.
  2:{ unfold ret. eexists _, _. split; [reflexivity|].
      destruct (scroll_loop_bounded B config max_scrolls _ _ _ _ _
                  ltac:(lia) E1) as [Hle _].
      lia. }
  destruct (scroll_loop_bounded B config max_scrolls _ _ _ _ _
              ltac:(lia) E1) as [Hle _].
  destruct (count_cards B (card_selector config) st2)
    as [[n1|msg] st3] eqn:E2;
    apply count_cards_scrolls in E2.
  - destruct (0 <? Z.of_nat n1 - Z.of_nat n0); unfold ret;
      eexists _, _; (split; [reflexivity|]); lia.
  - unfold ret. eexists _, _. split; [reflexivity|]. lia.
Qed.

End ScrollTotal.

(** *** The simulated page *)

Section SimulatedPage.
Variable f : nat -> nat.
Variable k : nat.
Hypothesis grows : forall j, (j < k)%nat -> (f j < f (S j))%nat.
Hypothesis stalls : forall j, (k <= j)%nat -> (f (S j) <= f j)%nat.

Let B := Scripted.world (scroll_page f).

Lemma sim_scroll_once (config : Config) (n : nat) (l : option str)
    (log : list call) :
  exists log',
    scroll_once B config ((n, l), log)
    = (Ok (f n <? f (S n))%nat, ((S n, l), log'))
    /\ scrolls log' = S (scrolls log).
Proof.
  unfold scroll_once, count_cards. run_monad. cbn.
  rewrite !length_seq. eexists. split; [reflexivity|].
  rewrite !scrolls_app. cbn. lia.
Qed.

(** After the last growing scroll, each further scroll raises
    [consecutive_no_load] by one until it reaches the limit. *)
Lemma sim_loop_stalled (config : Config) (d : nat) :
  forall c t n l log,
    (k <= n)%nat -> (c + d = max_consecutive_attempts)%nat ->
    (t + d <= max_scrolls)%nat ->
    exists st',
      scroll_loop B config c t ((n, l), log)
      = (Ok (max_consecutive_attempts, (t + d)%nat), st')
      /\ scrolls (snd st') = (scrolls log + d)%nat.
Proof.
  induction d as [|d IH]; intros c t n l log Hn Hc Ht.
  - rewrite scroll_loop_stops by lia.
    replace (t + 0)%nat with t by lia. replace c with max_consecutive_attempts by lia.
    eexists. split; [reflexivity|]. simpl. lia.
  - rewrite scroll_loop_eq.
    assert (Hg : (c <? max_consecutive_attempts)%nat
                 && (t <? max_scrolls)%nat = true).
    { apply andb_true_iff. split; apply Nat.ltb_lt; lia. }
    rewrite Hg.
    destruct (sim_scroll_once config n l log) as (log' & -> & Hs).
    assert (Hf : (f n <? f (S n))%nat = false)
      by (apply Nat.ltb_ge, stalls; lia).
    rewrite Hf.
    destruct (IH (S c) (S t) (S n) l log') as (st' & -> & Hs');
      try lia.
    replace (t + S d)%nat with (S t + d)%nat by lia.
    eexists. split; [reflexivity|]. lia.
Qed.

(** While the page grows, each scroll resets [consecutive_no_load]. *)
Lemma sim_loop_growing (config : Config) (d : nat) :
  forall t n l log,
    (n + d = k)%nat ->
    (t + d + max_consecutive_attempts <= max_scrolls)%nat ->
    exists st',
      scroll_loop B config 0 t ((n, l), log)
      = (Ok (max_consecutive_attempts,
             (t + d + max_consecutive_attempts)%nat), st')
      /\ scrolls (snd st')
         = (scrolls log + d + max_consecutive_attempts)%nat.
Proof.
  induction d as [|d IH]; intros t n l log Hn Ht.
  - destruct (sim_loop_stalled config max_consecutive_attempts 0 t n l log)
      as (st' & -> & Hs); try lia.
    replace (t + 0 + max_consecutive_attempts)%nat
      with (t + max_consecutive_attempts)%nat by lia.
    eexists. split; [reflexivity|]. lia.
  - rewrite scroll_loop_eq.
    assert (Hg : (0 <? max_consecutive_attempts)%nat
                 && (t <? max_scrolls)%nat = true).
    { apply andb_true_iff. split; apply Nat.ltb_lt;
        unfold max_consecutive_attempts in *; lia. }
    rewrite Hg.
    destruct (sim_scroll_once config n l log) as (log' & -> & Hs).
    assert (Hf : (f n <? f (S n))%nat = true)
      by (apply Nat.ltb_lt, grows; lia).
    rewrite Hf.
    destruct (IH (S t) (S n) l log') as (st' & -> & Hs'); try lia.
    replace (t + S d + max_consecutive_attempts)%nat
      with (S t + d + max_consecutive_attempts)%nat by lia.
    eexists. split; [reflexivity|]. lia.
Qed.

Lemma sim_handle_infinite_scroll (config : Config) (current_page : Z) :
  (k + max_consecutive_attempts <= max_scrolls)%nat ->
  scrolls (snd (snd (handle_infinite_scroll B config current_page
                       (Scripted.init (scroll_page f)))))
  = (k + max_consecutive_attempts)%nat.
Proof.
  intros Hk. unfold handle_infinite_scroll, try_except, bind.
  destruct (count_cards B (card_selector config)
              (Scripted.init (scroll_page f))) as [r0 [[n0 l0] log0]] eqn:E0.
  assert (Hs0 : scrolls log0 = 0%nat)
    by (apply count_cards_scrolls in E0; exact E0).
  assert (Hn0 : n0 = 0%nat /\ exists c0, r0 = Ok c0).
  { unfold count_cards in E0. run_monad. cbn in E0. inversion E0.
    split; eauto. }
  destruct Hn0 as [-> [c0 ->]].
  destruct (sim_loop_growing config k 0 0 l0 log0) as (st' & Hloop & Hs);
    try lia.
  destruct (scroll_loop B config 0 0 _) as [r1 st2] eqn:E1.
  inversion Hloop. subst r1 st2. clear E1 Hloop.
  destruct (count_cards B (card_selector config) st') as [r1 st1] eqn:E1.
  apply count_cards_scrolls in E1.
  destruct r1 as [c1|msg]; cbn [fst snd].
  - destruct (0 <? Z.of_nat c1 - Z.of_nat c0); unfold ret; cbn [fst snd];
      lia.
  - unfold ret. cbn [fst snd]. lia.
Qed.

End SimulatedPage.



(** ** Regular expressions: how the matcher runs *)

Section ReFacts.

Lemma m_lit (ic : bool) (w : str) :
  forall pos s c k,
    m ic (lit w) pos s c k
    = if lit_prefix ic w s
      then k (pos + length w)%nat (skipn (length w) s) c
      else None.
Proof.
  induction w as [|a w IH]; intros pos s c k; simpl.
  - rewrite Nat.add_0_r. reflexivity.
  - destruct s as [|b s]; [reflexivity|].
    destruct ic; simpl.
    + destruct (Ascii.eqb (py_lower_char b) (py_lower_char a)); simpl;
        [|reflexivity].
      rewrite IH. replace (S pos + length w)%nat with (pos + S (length w))%nat
        by lia. reflexivity.
    + destruct (Ascii.eqb b a); simpl; [|reflexivity].
      rewrite IH. replace (S pos + length w)%nat with (pos + S (length w))%nat
        by lia. reflexivity.
Qed.

Lemma lit_prefix_startswith (w s : str) :
  lit_prefix false w s = startswith w s.
Proof.
  revert s. induction w as [|a w IH]; intros [|b s]; simpl; auto.
  rewrite IH, Ascii.eqb_sym. reflexivity.
Qed.

Lemma span_app (p : ascii -> bool) (s : str) :
  s = fst (span p s) ++ snd (span p s).
Proof.
  induction s as [|x s IH]; simpl; auto.
  destruct (p x); simpl; auto.
  destruct (span p s) as [a b]. simpl in *. f_equal. exact IH.
Qed.

Lemma span_all (p : ascii -> bool) (a rest : str) :
  forallb p a = true ->
  match rest with [] => True | c :: _ => p c = false end ->
  span p (a ++ rest) = (a, rest).
Proof.
  intros Ha Hr. induction a as [|x a IH]; simpl in *.
  - destruct rest as [|c rest]; simpl; auto. rewrite Hr. reflexivity.
  - apply andb_true_iff in Ha as [Hx Ha]. rewrite Hx, (IH Ha). reflexivity.
Qed.

(** An unbounded greedy repeat followed by nothing that can fail takes the
    longest run. *)
Lemma rep_greedy_accept (ic : bool) (cs : cset) (s : str) :
  forall lo pos c,
    rep_greedy ic cs lo None pos s c accept
    = if (lo <=? length (fst (span (cs_mem ic cs) s)))%nat
      then Some (MRes (pos + length (fst (span (cs_mem ic cs) s)))%nat
                   (snd (span (cs_mem ic cs) s)) c)
      else None.
Proof.
  induction s as [|x s IH]; intros lo pos c; simpl.
  - rewrite Nat.add_0_r. destruct lo; reflexivity.
  - destruct (cs_mem ic cs x) eqn:Hx.
    + rewrite IH. destruct (span (cs_mem ic cs) s) as [a b]. simpl.
      destruct lo as [|lo]; simpl; rewrite ?Nat.add_succ_r.
      * reflexivity.
      * destruct (lo <=? length a)%nat; reflexivity.
    + simpl. rewrite Nat.add_0_r. destruct lo; reflexivity.
Qed.

End ReFacts.

(** *** Substring search and [re.sub] *)

Section SubFacts.

Lemma startswith_app_within (w a z : str) :
  (length w <= length a)%nat -> startswith w (a ++ z) = startswith w a.
Proof.
  revert a. induction w as [|x w IH]; intros [|y a] Hl; simpl in *;
    try lia; auto.
  rewrite IH by lia. reflexivity.
Qed.

Lemma contains_skipn (w s : str) (i : nat) :
  startswith w (skipn i s) = true -> contains w s = true.
Proof.
  revert i. induction s as [|x s IH]; intros i Hs.
  - rewrite skipn_nil in Hs. simpl. rewrite Hs. reflexivity.
  - destruct i as [|i]; simpl in *.
    + rewrite Hs. reflexivity.
    + rewrite (IH i Hs). apply orb_true_r.
Qed.

Lemma contains_app_middle (w a z : str) : contains w (a ++ w ++ z) = true.
Proof.
  apply (contains_skipn w (a ++ w ++ z) (length a)).
  rewrite skipn_app, skipn_all, Nat.sub_diag. simpl.
  rewrite <- (app_nil_r w) at 1.
  clear a. induction w as [|x w IH]; simpl; auto.
  rewrite Ascii.eqb_refl. simpl. rewrite app_nil_r in *. exact IH.
Qed.

(** An occurrence that starts inside [a] and is no longer than what is left
    of [a] is an occurrence in [a]. *)
Lemma contains_within (w a z : str) (i : nat) :
  (i + length w <= length a)%nat ->
  startswith w (skipn i (a ++ z)) = true -> contains w a = true.
Proof.
  intros Hl Hs. apply (contains_skipn w a i).
  rewrite skipn_app in Hs.
  replace (i - length a)%nat with 0%nat in Hs by lia. simpl in Hs.
  rewrite startswith_app_within in Hs; [exact Hs|].
  rewrite length_skipn. lia.
Qed.

Variable ic : bool.
Variable r : re.
Variable repl : str.

(** Dropping the rest of a match. *)
Lemma sub_at_skip (a : str) :
  forall pos s,
    sub_at ic r repl pos (a ++ s) (length a)
    = sub_at ic r repl (pos + length a)%nat s 0.
Proof.
  induction a as [|x a IH]; intros pos s; simpl.
  - rewrite Nat.add_0_r. reflexivity.
  - destruct (a ++ s) eqn:E; rewrite <- E; rewrite IH;
      rewrite Nat.add_succ_r; reflexivity.
Qed.

(** Where the pattern does not match, the text is copied. *)
Lemma sub_at_copy (a : str) :
  forall pos s,
    (forall i, (i < length a)%nat ->
       m ic r (pos + i)%nat (skipn i (a ++ s)) no_caps accept = None) ->
    sub_at ic r repl pos (a ++ s) 0
    = a ++ sub_at ic r repl (pos + length a)%nat s 0.
Proof.
  induction a as [|x a IH]; intros pos s Hno; simpl.
  - rewrite Nat.add_0_r. reflexivity.
  - pose proof (Hno 0%nat ltac:(simpl; lia)) as H0.
    rewrite Nat.add_0_r in H0. simpl in H0.
    destruct (a ++ s) eqn:E; rewrite <- E in *; simpl in H0; rewrite H0;
      f_equal; rewrite IH, ?Nat.add_succ_r; try reflexivity;
      intros i Hi; specialize (Hno (S i) ltac:(simpl; lia));
      rewrite Nat.add_succ_r in Hno; exact Hno.
Qed.

Lemma sub_at_none (s : str) :
  forall pos,
    (forall i, (i <= length s)%nat ->
       m ic r (pos + i)%nat (skipn i s) no_caps accept = None) ->
    sub_at ic r repl pos s 0 = s.
Proof.
  intros pos Hno.
  rewrite <- (app_nil_r s) at 1. rewrite sub_at_copy.
  - simpl. specialize (Hno (length s) ltac:(lia)).
    rewrite skipn_all in Hno. rewrite Hno. apply app_nil_r.
  - intros i Hi. rewrite app_nil_r. apply Hno. lia.
Qed.

(** A non-empty match is replaced, and the search resumes after it. *)
Lemma sub_at_replace (mt s : str) (pos : nat) (res : mres) :
  mt <> [] ->
  m ic r pos (mt ++ s) no_caps accept = Some res ->
  m_end res = (pos + length mt)%nat ->
  sub_at ic r repl pos (mt ++ s) 0
  = repl ++ sub_at ic r repl (pos + length mt)%nat s 0.
Proof.
  intros Hne Hm He. destruct mt as [|x mt]; [contradiction|].
  simpl. simpl in Hm. rewrite Hm, He. simpl.
  replace (pos + S (length mt) - pos)%nat with (S (length mt)) by lia.
  f_equal.
  destruct (mt ++ s) eqn:E; rewrite <- E; rewrite sub_at_skip;
    rewrite Nat.add_succ_r; reflexivity.
Qed.

End SubFacts.

(** ** URL-parameter pagination: the next URL *)

Section NextUrlFacts.

Lemma startswith_app (a b s : str) :
  startswith (a ++ b) s = startswith a s && startswith b (skipn (length a) s).
Proof.
  revert s. induction a as [|x a IH]; intros s; simpl.
  - reflexivity.
  - destruct s as [|y s]; [reflexivity|].
    rewrite IH, andb_assoc. reflexivity.
Qed.

(** Where [param=] is followed by digits the pattern matches them all;
    elsewhere it does not match. *)
Lemma param_re_match (param s : str) (pos : nat) :
  m false (param_re param) pos s no_caps accept
  = if startswith (param ++ txt "=") s
    then
      let ds := fst (span is_digit (skipn (length param + 1) s)) in
      if (1 <=? length ds)%nat
      then Some (MRes (pos + length param + 1 + length ds)%nat
                   (snd (span is_digit (skipn (length param + 1) s)))
                   no_caps)
      else None
    else None.
Proof.
  unfold param_re. cbn [seqs]. cbn [m].
  rewrite m_lit, lit_prefix_startswith. cbn beta.
  rewrite startswith_app.
  destruct (startswith param s); [|reflexivity]. cbn [andb].
  change (lit (txt "=")) with (lit ["="%char]).
  rewrite m_lit, lit_prefix_startswith. cbn beta.
  change (txt "=") with ["="%char].
  destruct (startswith ["="%char] (skipn (length param) s)); [|reflexivity].
  unfold plus. cbn [m]. rewrite rep_greedy_accept.
  rewrite skipn_skipn. cbn [length].
  replace (1 + length param)%nat with (length param + 1)%nat by lia.
  change (cs_mem false CDigit) with is_digit. cbn zeta.
  destruct (1 <=? _)%nat; reflexivity.
Qed.

Lemma param_re_no_match (param s : str) (pos : nat) :
  startswith (param ++ txt "=") s = false ->
  m false (param_re param) pos s no_caps accept = None.
Proof. intros Hs. rewrite param_re_match, Hs. reflexivity. Qed.



End NextUrlFacts.

Section UrlParamOutcome.
Context (B : World).


End UrlParamOutcome.


(** ** The metadata parser: the [Posted <Month> <Day>, <Year>] rule *)

Section PostedRule.

(** A greedy repeat that can take all of [a] and no more, followed by a
    continuation that succeeds there, yields that success. *)
Lemma rep_greedy_take (ic : bool) (cs : cset) (a rest : str) (k : kont)
    (c : caps) (r : mres) :
  forall lo hi pos,
    forallb (cs_mem ic cs) a = true ->
    (lo <= length a)%nat ->
    match hi with None => True | Some h => (length a <= h)%nat end ->
    (hi = Some (length a)
     \/ match rest with [] => True | x :: _ => cs_mem ic cs x = false end) ->
    k (pos + length a)%nat rest c = Some r ->
    rep_greedy ic cs lo hi pos (a ++ rest) c k = Some r.
Proof.
  induction a as [|x a IH]; intros lo hi pos Ha Hlo Hhi Hstop Hk.
  - simpl in *. rewrite Nat.add_0_r in Hk.
    assert (lo = 0%nat) by lia. subst lo.
    destruct rest as [|y rest]; simpl.
    + rewrite Hk. destruct (hi_zero hi); reflexivity.
    + rewrite Hk. destruct (hi_zero hi) eqn:Hz; [reflexivity|].
      destruct Hstop as [-> | Hy]; [discriminate|]. rewrite Hy. reflexivity.
  - simpl in Ha. apply andb_true_iff in Ha as [Hx Ha]. simpl.
    assert (Hz : hi_zero hi = false).
    { destruct hi as [[|h]|]; simpl in *; auto. lia. }
    rewrite Hz, Hx.
    rewrite (IH (Nat.pred lo) (hi_pred hi) (S pos)); auto.
    + simpl in Hlo. lia.
    + destruct hi as [h|]; simpl in *; [lia | exact I].
    + destruct Hstop as [-> | Hr]; [left; reflexivity | right; exact Hr].
    + rewrite <- Hk. f_equal. simpl. lia.
Qed.

Lemma digit_not_space (c : ascii) : is_digit c = true -> py_isspace c = false.
Proof.
  destruct c as [[] [] [] [] [] [] [] []]; vm_compute; congruence.
Qed.

Lemma alpha_not_space (c : ascii) :
  is_ascii_alpha c = true -> py_isspace c = false.
Proof.
  destruct c as [[] [] [] [] [] [] [] []]; vm_compute; congruence.
Qed.

Lemma alpha_in_class (c : ascii) :
  cs_mem false (CUnion (CRange "A" "Z") (CRange "a" "z")) c
  = is_ascii_alpha c.
Proof. unfold is_ascii_alpha. simpl. apply orb_comm. Qed.

(** Text that begins and ends with a character outside [p] is not
    shortened by [strip_by p]. *)
Lemma strip_by_noop (p : ascii -> bool) (x y : ascii) (s : str) :
  p x = false -> p y = false -> strip_by p (x :: s ++ [y]) = x :: s ++ [y].
Proof.
  intros Hx Hy. unfold strip_by, rstrip_by. simpl. rewrite Hx.
  change (x :: s ++ [y]) with ((x :: s) ++ [y]).
  rewrite rev_app_distr. simpl. rewrite Hy. simpl.
  rewrite rev_app_distr, rev_involutive. reflexivity.
Qed.

Lemma forallb_map_ext (p q : ascii -> bool) (s : str) :
  (forall c, p c = q c) -> forallb p s = forallb q s.
Proof. intros H. induction s; simpl; congruence. Qed.

Lemma span_fst_all (p : ascii -> bool) (s : str) :
  forallb p (fst (span p s)) = true.
Proof.
  induction s as [|x s IH]; simpl; auto.
  destruct (p x) eqn:Hx; simpl; auto.
  destruct (span p s) as [a b]. simpl in *. rewrite Hx, IH. reflexivity.
Qed.

Lemma span_snd_stop (p : ascii -> bool) (s : str) :
  match snd (span p s) with [] => True | x :: _ => p x = false end.
Proof.
  induction s as [|x s IH]; simpl; auto.
  destruct (p x) eqn:Hx; simpl; auto.
  destruct (span p s) as [a b]. simpl in *. exact IH.
Qed.

Variables ws mon day year rest : str.
Hypothesis ws_nonempty : ws <> [].
Hypothesis ws_space : forallb py_isspace ws = true.
Hypothesis mon_alpha : forallb is_ascii_alpha mon = true.
Hypothesis mon_length : (3 <= length mon <= 9)%nat.
Hypothesis day_digits : forallb is_digit day = true.
Hypothesis day_length : (1 <= length day <= 2)%nat.
Hypothesis year_digits : forallb is_digit year = true.
Hypothesis year_length : length year = 4%nat.

Let date : str := mon ++ txt " " ++ day ++ txt ", " ++ year.

Lemma special_re_match :
  exists res,
    re_match false special_re (txt "Posted" ++ ws ++ date ++ rest) = Some res
    /\ group 1 res = date
    /\ group 2 res = first_line rest.
Proof.
  unfold re_match, special_re. cbn [seqs m].
  eexists. split.
  - rewrite m_lit.
    change (lit_prefix false (txt "Posted")
              (txt "Posted" ++ ws ++ date ++ rest)) with true.
    change (skipn (length (txt "Posted"))
              (txt "Posted" ++ ws ++ date ++ rest))
      with (ws ++ date ++ rest).
    cbn iota beta. unfold plus. cbn [m].
    apply rep_greedy_take;
      [ exact ws_space
      | destruct ws; [contradiction | simpl; lia]
      | exact I
      | right; unfold date;
        destruct mon as [|x mon']; [simpl in mon_length; lia|];
        simpl; simpl in mon_alpha;
        apply andb_true_iff in mon_alpha as [Hx _];
        apply alpha_not_space; exact Hx
      | ].
    cbn beta.
    replace (date ++ rest)
      with (mon ++ (" "%char :: day ++ ","%char :: " "%char :: year ++ rest))
      by (unfold date; rewrite <- !app_assoc; reflexivity).
    apply rep_greedy_take;
      [ rewrite (forallb_map_ext _ is_ascii_alpha);
        [exact mon_alpha | apply alpha_in_class]
      | lia | lia | right; reflexivity | ].
    cbn beta. change (lit (txt " ")) with (lit [" "%char]).
    cbn [m lit cs_mem]. rewrite Ascii.eqb_refl.
    apply rep_greedy_take;
      [ exact day_digits | lia | lia | right; reflexivity | ].
    cbn beta. change (lit (txt ", ")) with (lit [","%char; " "%char]).
    cbn [m lit cs_mem]. rewrite !Ascii.eqb_refl.
    apply rep_greedy_take;
      [ exact year_digits | lia | lia | left; f_equal; lia | ].
    cbn beta. unfold star. cbn [m].
    rewrite (span_app (cs_mem false CAny) rest) at 1.
    apply rep_greedy_take;
      [ apply span_fst_all | lia | exact I | right; apply span_snd_stop | ].
    cbn beta. unfold accept. reflexivity.
  - split.
    + unfold group. cbn [m_caps]. unfold set_cap. cbn [Nat.eqb].
      match goal with
      | |- firstn ?n _ = _ => replace n with (length date)
      end.
      * replace (mon ++ " "%char :: day ++ ","%char :: " "%char :: year
                 ++ rest) with (date ++ rest)
          by (unfold date; rewrite <- !app_assoc; reflexivity).
        apply take_app_length.
      * unfold date. rewrite !length_app. cbn [length txt
          list_ascii_of_string]. lia.
    + unfold group. cbn [m_caps]. unfold set_cap. cbn [Nat.eqb].
      match goal with
      | |- firstn ?n _ = _ =>
          replace n with (length (first_line rest))
      end.
      * rewrite (span_app (cs_mem false CAny) rest) at 2.
        apply take_app_length.
      * unfold first_line. change (cs_mem false CAny)
          with (fun c => negb (Ascii.eqb c nl)). lia.
Qed.

Lemma date_strip : strip date = date.
Proof.
  unfold date.
  destruct mon as [|x mon']; [simpl in mon_length; lia|].
  destruct (rev year) as [|y year'] eqn:Hy.
  { apply (f_equal (@length ascii)) in Hy. rewrite length_rev in Hy.
    simpl in Hy. lia. }
  assert (Hyear : year = rev year' ++ [y]).
  { rewrite <- (rev_involutive year), Hy. reflexivity. }
  rewrite Hyear.
  replace ((x :: mon') ++ txt " " ++ day ++ txt ", " ++ rev year' ++ [y])
    with (x :: (mon' ++ txt " " ++ day ++ txt ", " ++ rev year') ++ [y])
    by (simpl; repeat (rewrite <- app_assoc; simpl); reflexivity).
  apply strip_by_noop.
  - simpl in mon_alpha. apply andb_true_iff in mon_alpha as [Hx _].
    apply alpha_not_space. exact Hx.
  - apply digit_not_space. rewrite Hyear, forallb_app in year_digits.
    apply andb_true_iff in year_digits as [_ Hd]. simpl in Hd.
    apply andb_true_iff in Hd as [Hd _]. exact Hd.
Qed.

(** X3. A text that, once stripped, reads [Posted], whitespace, 3 to 9
    letters, a space, 1 or 2 digits, a comma and a space, 4 digits, and
    then anything, is parsed by the first rule alone: the posted date is
    the date as written and the location is the rest of that line (the
    text up to the first newline) without surrounding spaces and commas. *)
Theorem parse_metadata_posted_rule (metadata_text : str) :
  strip metadata_text = txt "Posted" ++ ws ++ date ++ rest ->
  parse_metadata metadata_text
  = Meta2 (strip_chars (txt " ,") (first_line rest)) date.
Proof.
  intros Hs. unfold parse_metadata.
  destruct metadata_text as [|x t]; [discriminate Hs|].
  cbn [truthy negb]. rewrite Hs.
  destruct special_re_match as (res & -> & H1 & H2).
  rewrite H1, H2, date_strip. reflexivity.
Qed.

End PostedRule.

Lemma parse_metadata_posted_rule_witness :
  parse_metadata (txt "Posted Jul 22, 2025Chennai, India")
  = Meta2 (strip_chars (txt " ,") (first_line (txt "Chennai, India")))
      (txt "Jul" ++ txt " " ++ txt "22" ++ txt ", " ++ txt "2025")
  /\ parse_metadata
       (txt "  Posted  March 3, 2024 , Pune" ++ [nl] ++ txt "Full time ")
     = Meta2 (strip_chars (txt " ,")
                (first_line (txt " , Pune" ++ [nl] ++ txt "Full time")))
         (txt "March" ++ txt " " ++ txt "3" ++ txt ", " ++ txt "2024").
Proof.
  split.
  - apply (parse_metadata_posted_rule (txt " ") (txt "Jul") (txt "22")
             (txt "2025") (txt "Chennai, India"));
      try reflexivity; try discriminate; simpl; lia.
  - apply (parse_metadata_posted_rule (txt "  ") (txt "March") (txt "3")
             (txt "2024") (txt " , Pune" ++ [nl] ++ txt "Full time"));
      try reflexivity; try discriminate; simpl; lia.
Defined.

(** ** Statistics of one page *)

Section Accounting.
Context (B : World).

Lemma accounted_refl (n : nat) (ls : LoopSt B) : accounted n ls ls.
Proof.
  exists []. rewrite app_nil_r. simpl. repeat split; lia.
Qed.

Lemma accounted_trans (n k : nat) (ls1 ls2 ls3 : LoopSt B) :
  accounted n ls1 ls2 -> accounted k ls2 ls3 ->
  accounted (n + k) ls1 ls3.
Proof.
  intros (new1 & Hj1 & H1) (new2 & Hj2 & H2).
  exists (new1 ++ new2). rewrite Hj2, Hj1, app_assoc, length_app.
  split; [reflexivity|]. lia.
Qed.

Ltac one_card new :=
  exists new; cbn [jobs stats length
                     total_job_cards_found skipped_duplicates
                     skipped_extraction_errors successful_extractions
                     gemini_processing_errors crawl4ai_errors
                     with_stats close_browser fst snd];
  rewrite ?app_nil_r; repeat split; try reflexivity; try lia.

Lemma finish_card_accounted (config : Config) (ls : LoopSt B) (jd : job_data)
    (link : str) (st st' : St B) (r : flow * LoopSt B) :
  finish_card B config ls jd link st = (Ok r, st') ->
  accounted 1 ls (snd r).
Proof.
  unfold finish_card. run_monad. intros Hr.
  repeat case_match; try congruence; inv_pairs;
    first [ match goal with
            | |- accounted _ _ (snd (_, {| jobs := _ ++ [?j] |})) =>
                solve [one_card [j]]
            end
          | solve [one_card (@nil (Job B))] ].
Qed.

Lemma card_body_accounted (config : Config) (card : H B) (ls : LoopSt B)
    (st st' : St B) (r : flow * LoopSt B) :
  card_body B config card ls st = (Ok r, st') ->
  accounted 1 ls (snd r).
Proof.
  unfold card_body, or_break. run_monad. intros Hr.
  repeat case_match; try congruence; inv_pairs;
    first [ eapply finish_card_accounted; eassumption
          | solve [one_card (@nil (Job B))] ].
Qed.

Lemma process_card_accounted (config : Config) (i : nat) (card : H B)
    (ls : LoopSt B) (st st' : St B) (r : flow * LoopSt B) :
  process_card B config i card ls st = (Ok r, st') ->
  accounted 1 ls (snd r).
Proof.
  unfold process_card. run_monad. intros Hr.
  repeat case_match; try congruence; inv_pairs;
    first [ eapply card_body_accounted; eassumption
          | solve [one_card (@nil (Job B))] ].
Qed.

Lemma card_loop_accounted (config : Config) (cards : list (H B)) :
  forall i ls st ls' st',
    card_loop B config i cards ls st = (Ok ls', st') ->
    accounted (length cards) ls ls'.
Proof.
  induction cards as [|card rest IH]; intros i ls st ls' st' Hr;
    simpl in Hr.
  - unfold ret in Hr. inversion Hr. subst. apply accounted_refl.
  - unfold bind in Hr.
    destruct (process_card B config i card ls st) as [[r|msg] st1] eqn:E;
      [|discriminate].
    apply process_card_accounted in E.
    change (length (card :: rest)) with (1 + length rest)%nat.
    destruct (fst r).
    + eapply accounted_trans; [exact E | eapply IH; exact Hr].
    + unfold ret in Hr. inversion Hr. subst.
      eapply accounted_trans; [exact E | apply accounted_refl].
Qed.

(** X4. The jobs collected before a page stay in front, in order; the new
    records are as many as [successful_extractions] says; and every card
    found is counted at most once, as extracted, as duplicate or as failed.
    Gemini and crawl errors never exceed the number of new records. *)
Theorem extract_job_data_accounting (config : Config)
    (existing : list (Job B)) (st : St B) :
  exists new stats st',
    extract_job_data B config existing st = (Ok (existing ++ new, stats), st')
    /\ successful_extractions stats = Z.of_nat (length new)
    /\ 0 <= skipped_duplicates stats
    /\ 0 <= skipped_extraction_errors stats
    /\ successful_extractions stats + skipped_duplicates stats
       + skipped_extraction_errors stats
       <= total_job_cards_found stats
    /\ 0 <= gemini_processing_errors stats <= successful_extractions stats
    /\ 0 <= crawl4ai_errors stats <= successful_extractions stats.
Proof.
  unfold extract_job_data. unfold bind at 1 2.
  destruct (try_except _ _ st) as [[[]|msg] st1] eqn:E1.
  2:{ unfold try_except in E1. destruct (perform _ _ st) as [[|] ?];
      discriminate. }
  destruct (try_except _ _ st1) as [[found|msg] st2] eqn:E2.
  2:{ unfold try_except, bind in E2.
      destruct (perform _ _ st1) as [[|] ?]; discriminate. }
  destruct found as [cards|].
  2:{ exists [], initial_stats, st2. rewrite app_nil_r. unfold ret.
      simpl. repeat split; lia. }
  unfold bind.
  match goal with
  | |- context [card_loop B config 0 cards ?l st2] =>
      destruct (card_loop_total B config cards 0 l st2) as (ls' & st3 & E3);
      rewrite E3; apply card_loop_accounted in E3
  end.
  destruct E3 as (new & Hj & Ht & Hs & Hd & He & Hsum & Hg & Hc).
  cbn [jobs stats total_job_cards_found skipped_duplicates
       skipped_extraction_errors successful_extractions
       gemini_processing_errors crawl4ai_errors] in *.
  exists new, (stats B ls'), st3. unfold ret. rewrite Hj.
  repeat split; try lia.
Qed.

End Accounting.

(** ** The metadata parser: blank input *)

Lemma lstrip_by_all (p : ascii -> bool) (s : str) :
  forallb p s = true -> lstrip_by p s = [].
Proof.
  induction s as [|x s IH]; simpl; auto.
  intros H. apply andb_true_iff in H as [Hx Hs]. rewrite Hx. auto.
Qed.

(** X5. A metadata text that is empty or holds only whitespace gives the
    2-tuple [('N/A', 'N/A')]: no rule fires on it. *)
Theorem parse_metadata_blank (metadata_text : str) :
  forallb py_isspace metadata_text = true ->
  parse_metadata metadata_text = Meta2 na na.
Proof.
  intros Hws. unfold parse_metadata.
  destruct metadata_text as [|x t]; [reflexivity|].
  cbn [truthy negb].
  assert (Hs : strip (x :: t) = []).
  { unfold strip, strip_by. rewrite lstrip_by_all by exact Hws.
    reflexivity. }
  rewrite Hs. vm_compute. reflexivity.
Qed.

Lemma parse_metadata_blank_witness :
  parse_metadata (txt "  " ++ [nl] ++ txt " ") = Meta2 na na.
Proof. apply parse_metadata_blank. reflexivity. Defined.

(** ** Classification of a closed browser *)

Lemma contains_exists (w s : str) :
  contains w s = true -> exists i, startswith w (skipn i s) = true.
Proof.
  induction s as [|x s IH]; simpl.
  - rewrite orb_false_r. intros H. exists 0%nat. exact H.
  - intros H. apply orb_true_iff in H as [H | H].
    + exists 0%nat. exact H.
    + destruct (IH H) as [i Hi]. exists (S i). exact Hi.
Qed.

Lemma contains_suffix (a b s : str) :
  contains (a ++ b) s = true -> contains b s = true.
Proof.
  intros H. apply contains_exists in H as [i Hi].
  rewrite startswith_app in Hi. apply andb_true_iff in Hi as [_ Hb].
  rewrite skipn_skipn in Hb. eapply contains_skipn. exact Hb.
Qed.

(** X6. The handlers treat an exception as a closed browser exactly when
    its lower-cased message contains ['browser has been closed']: the first
    of the two substrings tested ends with the second, so it adds
    nothing. *)
Theorem is_browser_closed_error_one_test (msg : str) :
  is_browser_closed_error msg
  = contains (txt "browser has been closed") (lower msg).
Proof.
  unfold is_browser_closed_error.
  destruct (contains (txt "target page, context or browser has been closed")
              (lower msg)) eqn:E; [|reflexivity].
  change (txt "target page, context or browser has been closed")
    with (txt "target page, context or " ++ txt "browser has been closed")
    in E.
  apply contains_suffix in E. rewrite E. reflexivity.
Qed.

(** ** Standard fields *)

Section StandardFields.

Lemma set_default_lookup (key k : string) (v : str) (jd : gmap string str) :
  set_default key v jd !! k
  = match jd !! k with
    | Some x => Some x
    | None => if String.eqb k key then Some v else None
    end.
Proof.
  unfold set_default, job_data. case_match.
  - destruct (jd !! k) as [x|] eqn:Hx; [reflexivity|].
    destruct (String.eqb k key) eqn:E; [|reflexivity].
    apply String.eqb_eq in E. subst. congruence.
  - destruct (String.eqb k key) eqn:E.
    + apply String.eqb_eq in E. subst. rewrite lookup_insert_eq.
      match goal with Hn : _ !! key = None |- _ => rewrite Hn end.
      reflexivity.
    + apply String.eqb_neq in E. rewrite lookup_insert_ne by congruence.
      destruct (jd !! k); reflexivity.
Qed.

Lemma set_default_keeps (key k : string) (v x : str) (jd : gmap string str) :
  jd !! k = Some x -> set_default key v jd !! k = Some x.
Proof. intros H. rewrite set_default_lookup, H. reflexivity. Qed.

Lemma set_default_sets (key : string) (v : str) (jd : gmap string str) :
  is_Some (set_default key v jd !! key).
Proof.
  rewrite set_default_lookup, String.eqb_refl.
  destruct (jd !! key); eauto.
Qed.

Lemma set_default_is_Some (key k : string) (v : str) (jd : gmap string str) :
  is_Some (jd !! k) -> is_Some (set_default key v jd !! k).
Proof. intros [x Hx]. exists x. apply set_default_keeps. exact Hx. Qed.

Lemma set_default_absent (key k : string) (v : str) (jd : gmap string str) :
  jd !! k = None -> k <> key -> set_default key v jd !! k = None.
Proof.
  intros H Hne. rewrite set_default_lookup, H.
  apply String.eqb_neq in Hne. rewrite Hne. reflexivity.
Qed.



End StandardFields.

(** ** Aggregated statistics *)

Lemma stats_eq (a b : Stats) :
  total_job_cards_found a = total_job_cards_found b ->
  skipped_duplicates a = skipped_duplicates b ->
  skipped_extraction_errors a = skipped_extraction_errors b ->
  successful_extractions a = successful_extractions b ->
  gemini_processing_errors a = gemini_processing_errors b ->
  crawl4ai_errors a = crawl4ai_errors b ->
  browser_closed_early a = browser_closed_early b ->
  a = b.
Proof. destruct a, b; simpl; intros; subst; reflexivity. Qed.

(** X8. Aggregating page statistics is associative, with the statistics of
    an empty session as neutral element; it keeps every card counted at
    most once; and the closed-browser flag, once set, stays set. *)
Theorem aggregate_stats_composes (a b c : Stats) :
  aggregate_stats (aggregate_stats a b) c
  = aggregate_stats a (aggregate_stats b c)
  /\ aggregate_stats initial_stats a = a
  /\ (consistent a -> consistent b -> consistent (aggregate_stats a b))
  /\ (browser_closed_early a = true ->
      browser_closed_early (aggregate_stats a b) = true).
Proof.
  split; [|split; [|split]].
  - apply stats_eq; simpl; try lia.
    destruct (browser_closed_early c), (browser_closed_early b);
      reflexivity.
  - apply stats_eq; simpl; try lia.
    destruct (browser_closed_early a); reflexivity.
  - unfold consistent. simpl. intros Ha Hb. lia.
  - simpl. intros ->. destruct (browser_closed_early b); reflexivity.
Qed.

Lemma aggregate_stats_composes_witness :
  let page := {| total_job_cards_found := 3; skipped_duplicates := 1;
                 skipped_extraction_errors := 0;
                 successful_extractions := 2;
                 gemini_processing_errors := 1; crawl4ai_errors := 0;
                 browser_closed_early := true |} in
  consistent (aggregate_stats page initial_stats)
  /\ browser_closed_early (aggregate_stats page initial_stats) = true.
Proof.
  intros page.
  pose proof (aggregate_stats_composes page initial_stats initial_stats)
    as (_ & _ & Hc & Hf).
  split.
  - apply Hc; unfold consistent; simpl; lia.
  - apply Hf. reflexivity.
Defined.

(** ** Button pagination: when the click happens *)

Section ButtonOutcome.
Context (B : World).

(** X9. [handle_button_pagination] returns [True] exactly when the
    pagination selector is non-empty and finds a button, the value of its
    [disabled] attribute is missing or empty, its class does not contain
    [disabled], and the click succeeds; whether the cards then reappear
    within the wait does not matter. *)
Theorem handle_button_pagination_true_iff
    (config : Config) (current_page : Z) (st : St B) :
  fst (handle_button_pagination B config current_page st) = Ok true
  <-> exists sel button w1 d w2 cls w3 w4,
        pagination_selector config = Some sel
        /\ sel <> []
        /\ page_query_selector B sel (fst st) = (Ok (Some button), w1)
        /\ el_get_attribute B button "disabled" w1 = (Ok d, w2)
        /\ truthy_opt d = false
        /\ el_get_attribute B button "class" w2 = (Ok cls, w3)
        /\ contains (txt "disabled") (get_or cls []) = false
        /\ el_click B button w3 = (Ok tt, w4).
Proof.
  destruct st as [w log]. unfold handle_button_pagination. run_monad.
  split.
  - intros Ht.
    destruct (pagination_selector config) as [sel|] eqn:Hsel;
      cbn [truthy_opt negb get_or fst snd] in Ht; [|discriminate].
    destruct sel as [|x sel]; cbn [truthy negb fst snd] in Ht;
      [discriminate|].
    destruct (page_query_selector B (x :: sel) w) as [[[button|]|msg] w1]
      eqn:Hq; cbn [fst snd] in Ht; try discriminate.
    destruct (el_get_attribute B button "disabled" w1) as [[d|msg] w2]
      eqn:Hd; cbn [fst snd] in Ht; [|discriminate].
    destruct (truthy_opt d) eqn:Hdt; cbn [fst snd] in Ht; [discriminate|].
    destruct (el_get_attribute B button "class" w2) as [[cls|msg] w3]
      eqn:Hc; cbn [fst snd] in Ht; [|discriminate].
    destruct (contains (txt "disabled") (get_or cls [])) eqn:Hcl;
      cbn [fst snd] in Ht; [discriminate|].
    destruct (el_click B button w3) as [[[]|msg] w4] eqn:Hk;
      cbn [fst snd] in Ht; [|discriminate].
    exists (x :: sel), button, w1, d, w2, cls, w3, w4.
    repeat split; auto.
  - intros (sel & button & w1 & d & w2 & cls & w3 & w4
            & Hsel & Hne & Hq & Hd & Hdt & Hc & Hcl & Hk).
    rewrite Hsel. destruct sel as [|x sel]; [contradiction|].
    cbn [truthy_opt truthy negb get_or fst snd]. rewrite Hq.
    cbn [fst snd]. rewrite Hd. cbn [fst snd]. rewrite Hdt.
    cbn [fst snd]. rewrite Hc. cbn [fst snd]. rewrite Hcl.
    cbn [fst snd]. rewrite Hk. cbn [fst snd].
    repeat case_match; try congruence; inv_pairs; reflexivity.
Qed.

End ButtonOutcome.

Lemma handle_button_pagination_true_iff_witness :
  let sc := Scripted.set_page_query (fun _ => Ok (Some 7%nat))
              (Scripted.plain 1) in
  exists sel button w1 d w2 cls w3 w4,
    pagination_selector button_config = Some sel
    /\ sel <> []
    /\ page_query_selector (Scripted.world sc) sel
         (fst (Scripted.init sc)) = (Ok (Some button), w1)
    /\ el_get_attribute (Scripted.world sc) button "disabled" w1 = (Ok d, w2)
    /\ truthy_opt d = false
    /\ el_get_attribute (Scripted.world sc) button "class" w2 = (Ok cls, w3)
    /\ contains (txt "disabled") (get_or cls []) = false
    /\ el_click (Scripted.world sc) button w3 = (Ok tt, w4).
Proof.
  intros sc.
  apply (proj1 (handle_button_pagination_true_iff (Scripted.world sc)
                  button_config 1 (Scripted.init sc))).
  reflexivity.
Defined.

(** ** The duplicate gate inside the loop *)

Section GateInLoop.
Context (B : World).

(** X10. For a card whose apply link the gate reports as a duplicate, the
    loop body stops right after the gate: the detail page is not crawled,
    the enrichment is not called, no record is appended and only
    [skipped_duplicates] grows.  For the link ['N/A'] neither the database
    nor the crawler is called, and the record is appended all the same. *)
Theorem finish_card_gate (config : Config) (ls : LoopSt B)
    (jd : gmap string str) (link : str) (st : St B) :
  (forall st1,
     check_apply_link_exists B (Some link) st = (Ok true, st1) ->
     exists ls',
       finish_card B config ls jd link st = (Ok (Continue, ls'), st1)
       /\ jobs B ls' = jobs B ls
       /\ skipped_duplicates (stats B ls')
          = skipped_duplicates (stats B ls) + 1
       /\ successful_extractions (stats B ls')
          = successful_extractions (stats B ls))
  /\ (link = na ->
      exists ls' j w',
        finish_card B config ls jd link st
        = (Ok (Continue, ls'), (w', snd st ++ [Enrich]))
        /\ jobs B ls' = jobs B ls ++ [j]
        /\ crawl4ai_errors (stats B ls') = crawl4ai_errors (stats B ls)).
Proof.
  split.
  - intros st1 Hdup. unfold finish_card, bind. rewrite Hdup. unfold ret.
    eexists. split; [reflexivity|]. simpl. auto.
  - intros ->. destruct st as [w log].
    unfold finish_card. run_monad.
    change (check_apply_link_exists B (Some na) (w, log))
      with (@ret B bool false (w, log)).
    unfold ret. cbn [fst snd].
    change (truthy na && negb (str_eqb na (txt "N/A"))) with false.
    cbn [fst snd].
    destruct (enrich B _ w) as [[j e] w'] eqn:He. cbn [fst snd].
    eexists _, j, w'. split; [reflexivity|]. simpl. split; [reflexivity|].
    lia.
Qed.

End GateInLoop.

Lemma finish_card_gate_witness :
  let known := Scripted.set_count (fun _ => Ok (Some 2)) (Scripted.plain 1) in
  let B := Scripted.world known in
  let ls : LoopSt B :=
    {| jobs := []; stats := initial_stats; browser_closed := false |} in
  (exists ls',
     finish_card B base_config ls ∅ (txt "https://example.com/job/1")
       (Scripted.init known)
     = (Ok (Continue, ls'),
        ((0%nat, Some (txt "https://example.com/job/1")),
         [DbConnect; DbCursor; DbExecute (txt "https://example.com/job/1");
          DbFetchone; DbClose; DbCursorExit]))
     /\ jobs B ls' = jobs B ls
     /\ skipped_duplicates (stats B ls')
        = skipped_duplicates (stats B ls) + 1
     /\ successful_extractions (stats B ls')
        = successful_extractions (stats B ls))
  /\ exists ls' j w',
       finish_card B base_config ls ∅ na (Scripted.init known)
       = (Ok (Continue, ls'), (w', snd (Scripted.init known) ++ [Enrich]))
       /\ jobs B ls' = jobs B ls ++ [j]
       /\ crawl4ai_errors (stats B ls') = crawl4ai_errors (stats B ls).
Proof.
  intros known B ls. split.
  - apply (proj1 (finish_card_gate B base_config ls ∅
                    (txt "https://example.com/job/1")
                    (Scripted.init known))).
    reflexivity.
  - apply (proj2 (finish_card_gate B base_config ls ∅ na
                    (Scripted.init known))).
    reflexivity.
Defined.

(** * The selector-based fields and the metadata block *)

Section SelectorOverride.
Context (sc : Scripted.Script).

Local Abbreviation B := (Scripted.world sc).

Lemma extract_text_field_scripted (h : nat) (sel v : str) (st st' : St B) :
  extract_text_field B h sel st = (Ok (Value v), st') ->
  v = selector_text sc h sel.
Proof.
  unfold extract_text_field, stripped_text, on_error, selector_text.
  run_monad. cbn [Scripted.world el_query_selector el_text_content].
  intros Hr.
  repeat case_match; try congruence; inv_pairs; try reflexivity;
    try congruence.
Qed.

Lemma add_standard_fields_keeps (config : Config) (scraped_at : str)
    (jd : gmap string str) (k : string) (x : str) :
  jd !! k = Some x -> add_standard_fields config scraped_at jd !! k = Some x.
Proof.
  intros Hk. unfold add_standard_fields. cbn [fold_left fst snd].
  repeat apply set_default_keeps. exact Hk.
Qed.

(** The record of a card: its location and posted date are what the two
    selectors show. *)
Definition from_selectors (config : Config) (j : gmap string str) : Prop :=
  exists h,
    j !! "location" = Some (selector_text sc h (location_selector config))
    /\ j !! "posted_date"
       = Some (selector_text sc h (posted_selector config)).

Definition appends (P : gmap string str -> Prop) (ls ls' : LoopSt B)
    : Prop :=
  jobs B ls' = jobs B ls
  \/ exists j, jobs B ls' = jobs B ls ++ [j] /\ P j.

Lemma finish_card_scripted (config : Config) (ls : LoopSt B)
    (jd : gmap string str) (link : str) (st st' : St B)
    (r : flow * LoopSt B) (P : gmap string str -> Prop) :
  (forall scraped_at info,
     P (add_standard_fields config scraped_at
          (<["job_details_info" := info]> jd))) ->
  finish_card B config ls jd link st = (Ok r, st') ->
  appends P ls (snd r).
Proof.
  intros HP. unfold finish_card, appends. unfold bind at 1.
  destruct (check_apply_link_exists B (Some link) st)
    as [[duplicate|?] st1]; [|congruence].
  destruct duplicate.
  { unfold ret. intros Hr. inv_pairs. left. reflexivity. }
  unfold bind at 1.
  match goal with
  | |- context [(if ?c then ?a else ?b) st1] =>
      destruct ((if c then a else b) st1) as [[details|?] st2];
        [|congruence]
  end.
  unfold bind, read, perform_total, ret.
  cbn [Scripted.world enrich now_isoformat fst snd].
  intros Hr. inv_pairs. right. cbn [jobs snd fst]. eexists. split;
    [reflexivity|]. apply HP.
Qed.

Lemma card_body_scripted (config : Config) (card : nat) (ls : LoopSt B)
    (st st' : St B) (r : flow * LoopSt B) :
  card_body B config card ls st = (Ok r, st') ->
  appends (from_selectors config) ls (snd r).
Proof.
  unfold card_body, or_break. unfold bind at 1. 
  destruct (try_except _ _ st) as [[alive|?] st0]; [|congruence].
  destruct (negb alive).
  { unfold ret. intros Hr. inv_pairs. left. reflexivity. }
  unfold bind at 1.
  destruct (extract_text_field B card (title_selector config) st0)
    as [[[title|]|?] st1]; try (unfold ret; intros Hr; inv_pairs; left;
                                reflexivity); try congruence.
  unfold bind at 1.
  destruct (extract_metadata B config card _ st1)
    as [[[jd|]|?] st2]; try (unfold ret; intros Hr; inv_pairs; left;
                             reflexivity); try congruence.
  unfold bind at 1.
  destruct (extract_text_field B card (location_selector config) st2)
    as [[[location|]|?] st3] eqn:Hloc;
    try (unfold ret; intros Hr; inv_pairs; left; reflexivity);
    try congruence.
  unfold bind at 1.
  destruct (extract_text_field B card (posted_selector config) st3)
    as [[[posted|]|?] st4] eqn:Hposted;
    try (unfold ret; intros Hr; inv_pairs; left; reflexivity);
    try congruence.
  unfold bind at 1.
  destruct (extract_text_field B card _ st4)
    as [[[description|]|?] st5];
    try (unfold ret; intros Hr; inv_pairs; left; reflexivity);
    try congruence.
  unfold bind at 1.
  destruct (extract_href B config card st5)
    as [[[href|]|?] st6];
    try (unfold ret; intros Hr; inv_pairs; left; reflexivity);
    try congruence.
  unfold bind at 1.
  destruct (apply_link_of B config href st6) as [[link|?] st7];
    [|congruence].
  apply finish_card_scripted. intros scraped_at info.
  apply extract_text_field_scripted in Hloc, Hposted. subst.
  exists card. unfold job_data in *.
  split; apply add_standard_fields_keeps.
  - repeat (rewrite lookup_insert_ne by discriminate).
    rewrite lookup_insert_eq. reflexivity.
  - repeat (rewrite lookup_insert_ne by discriminate).
    rewrite lookup_insert_eq. reflexivity.
Qed.

Lemma process_card_scripted (config : Config) (i card : nat)
    (ls : LoopSt B) (st st' : St B) (r : flow * LoopSt B) :
  process_card B config i card ls st = (Ok r, st') ->
  appends (from_selectors config) ls (snd r).
Proof.
  unfold process_card. run_monad. intros Hr.
  repeat case_match; try congruence; inv_pairs;
    try (left; reflexivity);
    try (eapply card_body_scripted; eassumption).
Qed.

Lemma card_loop_scripted (config : Config) (cards : list nat) :
  forall i ls st ls' st',
    card_loop B config i cards ls st = (Ok ls', st') ->
    exists new,
      jobs B ls' = jobs B ls ++ new /\ Forall (from_selectors config) new.
Proof.
  induction cards as [|card rest IH]; intros i ls st ls' st'; simpl.
  - unfold ret. intros Hr. inv_pairs. exists []. rewrite app_nil_r. auto.
  - unfold bind.
    destruct (process_card B config i card ls st) as [[r|?] st1] eqn:E;
      [|congruence].
    apply process_card_scripted in E.
    assert (Hstep : forall ls2,
              (exists new, jobs B ls2 = jobs B (snd r) ++ new
                           /\ Forall (from_selectors config) new) ->
              exists new, jobs B ls2 = jobs B ls ++ new
                          /\ Forall (from_selectors config) new).
    { intros ls2 (new & Hj & Hall). destruct E as [E|(j & E & Pj)].
      - exists new. rewrite Hj, E. auto.
      - exists (j :: new). rewrite Hj, E, <- app_assoc. auto. }
    destruct (fst r).
    + intros Hr. apply Hstep. eapply IH. exact Hr.
    + unfold ret. intros Hr. inv_pairs. apply Hstep. exists [].
      rewrite app_nil_r. auto.
Qed.


End SelectorOverride.

(** With metadata parsing on and the line
    ['Posted Jul 22, 2025Chennai, India'] on each card, the two records
    still carry ['N/A'] in both fields. *)
Example metadata_values_are_lost :
  map (fun j => (j !! "location", j !! "posted_date", j !! "metadata_raw"))
      (returned_jobs
         (extract_job_data (Scripted.world metadata_page) metadata_config []
            (Scripted.init metadata_page)))
  = [(Some na, Some na, Some (txt "Posted Jul 22, 2025Chennai, India"));
     (Some na, Some na, Some (txt "Posted Jul 22, 2025Chennai, India"))].
Proof. vm_compute. reflexivity. Qed.

(** * The page loop *)

Section PageLoop.
Context (B : World).

Lemma page_loop_eq (config : Config) (max_pages : Z) (ps : PageSt B)
    (st : St B) :
  page_loop B config max_pages ps st
  = if (current_page B ps <? max_pages)
       && (Z.of_nat (length (all_jobs B ps)) <? max_jobs config)
    then match page_step B config max_pages ps st with
         | (Ok (Continue, ps'), st') => page_loop B config max_pages ps' st'
         | (Ok (Break, ps'), st') => (Ok ps', st')
         | (Raise msg, st') => (Raise msg, st')
         end
    else (Ok ps, st).
Proof.
  simp page_loop.
  destruct (Z_lt_dec (current_page B ps) max_pages) as [Hlt|Hge]; simpl.
  - apply Z.ltb_lt in Hlt as Hb. rewrite Hb. simpl.
    destruct (Z.of_nat (length (all_jobs B ps)) <? max_jobs config); simpl;
      [|reflexivity].
    destruct (inspect (page_step B config max_pages ps st))
      as [[[[[] ps']|msg] st'] e]; simpl; rewrite e; reflexivity.
  - assert (Hb : (current_page B ps <? max_pages) = false)
      by (apply Z.ltb_nlt; exact Hge).
    rewrite Hb. simpl.
    destruct (Z.of_nat (length (all_jobs B ps)) <? max_jobs config);
      reflexivity.
Qed.

(** One pass over a page: what it returns and how its counters relate. *)
Lemma extract_job_data_pass (config : Config) (existing : list (Job B))
    (st : St B) :
  exists new stats st',
    extract_job_data B config existing st = (Ok (existing ++ new, stats), st')
    /\ successful_extractions stats = Z.of_nat (length new)
    /\ 0 <= skipped_duplicates stats
    /\ 0 <= skipped_extraction_errors stats
    /\ successful_extractions stats + skipped_duplicates stats
       + skipped_extraction_errors stats
       <= total_job_cards_found stats
    /\ 0 <= gemini_processing_errors stats <= successful_extractions stats
    /\ 0 <= crawl4ai_errors stats <= successful_extractions stats.
Proof.
  unfold extract_job_data. unfold bind at 1 2.
  destruct (try_except _ _ st) as [[[]|msg] st1] eqn:E1.
  2:{ unfold try_except in E1. destruct (perform _ _ st) as [[|] ?];
      discriminate. }
  destruct (try_except _ _ st1) as [[found|msg] st2] eqn:E2.
  2:{ unfold try_except, bind in E2.
      destruct (perform _ _ st1) as [[|] ?]; discriminate. }
  destruct found as [cards|].
  2:{ exists [], initial_stats, st2. rewrite app_nil_r. unfold ret.
      simpl. repeat split; lia. }
  unfold bind.
  match goal with
  | |- context [card_loop B config 0 cards ?l st2] =>
      destruct (card_loop_total B config cards 0 l st2) as (ls' & st3 & E3);
      rewrite E3; apply card_loop_accounted in E3
  end.
  destruct E3 as (new & Hj & Ht & Hs & Hd & He & Hsum & Hg & Hc).
  cbn [jobs stats total_job_cards_found skipped_duplicates
       skipped_extraction_errors successful_extractions
       gemini_processing_errors crawl4ai_errors] in *.
  exists new, (stats B ls'), st3. unfold ret. rewrite Hj.
  repeat split; try lia.
Qed.

(** What the loop keeps true of its locals. *)
Definition page_inv (ps : PageSt B) : Prop :=
  let s := overall_stats B ps in
  successful_extractions s = Z.of_nat (length (all_jobs B ps))
  /\ 0 <= skipped_duplicates s
  /\ 0 <= skipped_extraction_errors s
  /\ successful_extractions s + skipped_duplicates s
     + skipped_extraction_errors s <= total_job_cards_found s
  /\ 0 <= gemini_processing_errors s <= successful_extractions s
  /\ 0 <= crawl4ai_errors s <= successful_extractions s.

(** How the locals after some passes relate to those before. *)
Definition follows (config : Config) (ps ps' : PageSt B) : Prop :=
  (page_inv ps -> page_inv ps')
  /\ (exists new, all_jobs B ps' = all_jobs B ps ++ new)
  /\ (exists more, errors B ps' = errors B ps ++ more)
  /\ (opt_is (pagination_type config) (txt "infinite_scroll") = false ->
      Z.of_nat (length (all_jobs B ps)) <= Z.max 0 (max_jobs config) ->
      Z.of_nat (length (all_jobs B ps')) <= Z.max 0 (max_jobs config)).

Lemma follows_refl (config : Config) (ps : PageSt B) : follows config ps ps.
Proof.
  unfold follows.
  split; [auto|]. split; [exists []; rewrite app_nil_r; reflexivity|].
  split; [exists []; rewrite app_nil_r; reflexivity|]. auto.
Qed.

Lemma follows_trans (config : Config) (a b c : PageSt B) :
  follows config a b -> follows config b c -> follows config a c.
Proof.
  intros (I1 & (n1 & J1) & (m1 & E1) & B1) (I2 & (n2 & J2) & (m2 & E2) & B2).
  unfold follows.
  split; [auto|].
  split; [exists (n1 ++ n2); rewrite J2, J1, app_assoc; reflexivity|].
  split; [exists (m1 ++ m2); rewrite E2, E1, app_assoc; reflexivity|].
  auto.
Qed.

Lemma follows_error (config : Config) (ps : PageSt B) (e : str) :
  follows config ps (with_error B ps e).
Proof.
  unfold follows, with_error, page_inv.
  cbn [all_jobs overall_stats errors current_page].
  split; [tauto|]. split; [exists []; rewrite app_nil_r; reflexivity|].
  split; [exists [e]; reflexivity|]. tauto.
Qed.

Lemma follows_pass (config : Config) (ps : PageSt B) (new : list (Job B))
    (stats : Stats) (page : Z) :
  successful_extractions stats = Z.of_nat (length new) ->
  0 <= skipped_duplicates stats ->
  0 <= skipped_extraction_errors stats ->
  successful_extractions stats + skipped_duplicates stats
  + skipped_extraction_errors stats <= total_job_cards_found stats ->
  0 <= gemini_processing_errors stats <= successful_extractions stats ->
  0 <= crawl4ai_errors stats <= successful_extractions stats ->
  (opt_is (pagination_type config) (txt "infinite_scroll") = false ->
   Z.of_nat (length (all_jobs B ps)) <= Z.max 0 (max_jobs config) ->
   Z.of_nat (length (all_jobs B ps ++ new)) <= Z.max 0 (max_jobs config)) ->
  follows config ps
    {| all_jobs := all_jobs B ps ++ new;
       overall_stats := aggregate_stats (overall_stats B ps) stats;
       current_page := page; errors := errors B ps |}.
Proof.
  intros Hs Hd He Hsum Hg Hc Hb. unfold follows, page_inv, aggregate_stats.
  cbn [all_jobs overall_stats errors current_page total_job_cards_found
       skipped_duplicates skipped_extraction_errors successful_extractions
       gemini_processing_errors crawl4ai_errors].
  split.
  { intros (I1 & I2 & I3 & I4 & I5 & I6).
    rewrite length_app, Nat2Z.inj_add. repeat split; lia. }
  split; [exists new; reflexivity|].
  split; [exists []; rewrite app_nil_r; reflexivity|]. exact Hb.
Qed.

Ltac page_result follows_proof :=
  unfold ret; eexists _, _, _; split; [reflexivity|];
  split; [follows_proof|];
  cbn [current_page with_error]; split; [lia|];
  let Hc := fresh in
  intros Hc; first [discriminate Hc | (split; [lia | assumption])].

Lemma page_step_ok (config : Config) (max_pages : Z) (ps : PageSt B)
    (st : St B) :
  exists f ps' st',
    page_step B config max_pages ps st = (Ok (f, ps'), st')
    /\ follows config ps ps'
    /\ current_page B ps <= current_page B ps' <= current_page B ps + 1
    /\ (f = Continue ->
        current_page B ps' = current_page B ps + 1
        /\ opt_is (pagination_type config) (txt "none") = false).
Proof.
  unfold page_step. unfold bind at 1.
  destruct (try_except _ _ st) as [[alive|?] st0] eqn:E0.
  2:{ unfold try_except, bind, ret in E0.
      destruct (perform _ _ st) as [[|] ?]; discriminate. }
  destruct (negb alive).
  { page_result ltac:(apply follows_refl). }
  unfold try_except at 1. unfold bind at 1.
  destruct (extract_job_data_pass config (all_jobs B ps) st0)
    as (new & stats & st1 & E1 & Hs & Hd & He & Hsum & Hg & Hc).
  rewrite E1. cbn [fst snd all_jobs overall_stats current_page errors].
  assert (Hb : opt_is (pagination_type config) (txt "infinite_scroll") = false
               -> Z.of_nat (length (all_jobs B ps)) <= Z.max 0 (max_jobs config)
               -> Z.of_nat (length (all_jobs B ps ++ new))
                  <= Z.max 0 (max_jobs config)).
  { intros Hp Hl.
    pose proof (extract_job_data_bound B config (all_jobs B ps) st0
                  (Z.max 0 (max_jobs config)) Hp ltac:(lia) Hl) as Hbound.
    rewrite E1 in Hbound. exact Hbound. }
  pose proof (fun page => follows_pass config ps new stats page
                            Hs Hd He Hsum Hg Hc Hb) as Hf.
  destruct (max_jobs config <=? _).
  { page_result ltac:(apply Hf). }
  destruct (_ && _) eqn:Hcond.
  2:{ page_result ltac:(apply Hf). }
  apply andb_true_iff in Hcond as [Hlt Hnone].
  apply negb_true_iff in Hnone.
  unfold try_except, bind.
  destruct (handle_pagination _ _ _ _) as [[[]|msg] st2].
  - page_result ltac:(apply Hf).
  - page_result ltac:(apply Hf).
  - page_result ltac:(eapply follows_trans; [apply Hf | apply follows_error]).
Qed.

Lemma page_loop_ok (config : Config) (max_pages : Z) (n : nat) :
  forall ps st,
    (Z.to_nat (max_pages - current_page B ps) <= n)%nat ->
    exists ps' st',
      page_loop B config max_pages ps st = (Ok ps', st')
      /\ follows config ps ps'
      /\ current_page B ps <= current_page B ps'
         <= Z.max (current_page B ps) max_pages
      /\ (opt_is (pagination_type config) (txt "none") = true ->
          current_page B ps' <= current_page B ps + 1)
      /\ (max_pages <= current_page B ps
          \/ max_jobs config <= Z.of_nat (length (all_jobs B ps)) ->
          ps' = ps /\ st' = st).
Proof.
  induction n as [|n IH]; intros ps st Hn; rewrite page_loop_eq.
  - assert (Hb : (current_page B ps <? max_pages) = false)
      by (apply Z.ltb_nlt; lia).
    rewrite Hb. simpl. exists ps, st.
    split; [reflexivity|]. split; [apply follows_refl|].
    split; [lia|]. split; [lia|]. auto.
  - destruct (_ && _) eqn:Hcond.
    2:{ exists ps, st.
        split; [reflexivity|]. split; [apply follows_refl|].
        split; [lia|]. split; [lia|]. auto. }
    apply andb_true_iff in Hcond as [Hlt Hjobs].
    apply Z.ltb_lt in Hlt. apply Z.ltb_lt in Hjobs.
    destruct (page_step_ok config max_pages ps st)
      as (f & ps1 & st1 & E & Hf & Hpage & Hcont).
    rewrite E. destruct f.
    + destruct (Hcont eq_refl) as [Hnext Hnone].
      destruct (IH ps1 st1 ltac:(lia))
        as (ps' & st' & E' & Hf' & Hpage' & _ & _).
      exists ps', st'. split; [exact E'|].
      split; [eapply follows_trans; eassumption|].
      split; [lia|]. split; [congruence|]. lia.
    + exists ps1, st1. split; [reflexivity|].
      split; [exact Hf|]. split; [lia|]. split; [lia|]. lia.
Qed.

Lemma initial_pages_inv (errs : list str) : page_inv (initial_pages B errs).
Proof. unfold page_inv. simpl. repeat split; lia. Qed.

(** X12. The pages of one company, taken together: the run never raises;
    the overall [successful_extractions] is the number of jobs returned;
    extracted, duplicate and failed cards together never exceed the cards
    found; Gemini and crawl errors never exceed the jobs returned; the
    errors reported before stay in front; and [pages_scraped] lies between
    0 and [max_pages] (1 for [infinite_scroll]). *)
Theorem scrape_pages_accounting (config : Config) (max_pages : Z)
    (errs : list str) (st : St B) :
  exists ps st',
    scrape_pages B config max_pages errs st = (Ok ps, st')
    /\ successful_extractions (overall_stats B ps)
       = Z.of_nat (length (all_jobs B ps))
    /\ 0 <= skipped_duplicates (overall_stats B ps)
    /\ 0 <= skipped_extraction_errors (overall_stats B ps)
    /\ successful_extractions (overall_stats B ps)
       + skipped_duplicates (overall_stats B ps)
       + skipped_extraction_errors (overall_stats B ps)
       <= total_job_cards_found (overall_stats B ps)
    /\ 0 <= gemini_processing_errors (overall_stats B ps)
         <= successful_extractions (overall_stats B ps)
    /\ 0 <= crawl4ai_errors (overall_stats B ps)
         <= successful_extractions (overall_stats B ps)
    /\ (exists more, errors B ps = errs ++ more)
    /\ 0 <= current_page B ps <= Z.max 1 max_pages.
Proof.
  unfold scrape_pages.
  destruct (opt_is (pagination_type config) (txt "infinite_scroll")).
  - assert (Hpass : forall page errs' st0,
              (exists more, errs' = errs ++ more) -> 0 <= page <= 1 ->
              exists ps st',
                (let* r := extract_job_data B config [] in
                 ret {| all_jobs := fst r;
                        overall_stats :=
                          aggregate_stats initial_stats (snd r);
                        current_page := page; errors := errs' |}) st0
                = (Ok ps, st')
                /\ page_inv ps
                /\ (exists more, errors B ps = errs ++ more)
                /\ 0 <= current_page B ps <= Z.max 1 max_pages).
    { intros page errs' st0 Hmore Hpage. unfold bind, ret.
      destruct (extract_job_data_pass config [] st0)
        as (new & stats & st1 & E1 & Hs & Hd & He & Hsum & Hg & Hc).
      rewrite E1. eexists _, _. split; [reflexivity|].
      cbn [fst snd errors current_page]. split; [|split; [exact Hmore|lia]].
      unfold page_inv, aggregate_stats, initial_stats.
      cbn [all_jobs overall_stats total_job_cards_found
           skipped_duplicates skipped_extraction_errors
           successful_extractions gemini_processing_errors
           crawl4ai_errors app].
      repeat split; lia. }
    unfold try_except at 1. unfold bind at 1.
    destruct (handle_infinite_scroll B config 0 st) as [[b|msg] st0].
    + destruct (Hpass 1 errs st0) as (ps & st' & E & Hinv & Hmore & Hpage);
        [exists []; rewrite app_nil_r; reflexivity | lia |].
      rewrite E. exists ps, st'. split; [reflexivity|].
      destruct Hinv as (I1 & I2 & I3 & I4 & I5 & I6).
      repeat split; try lia; exact Hmore.
    + unfold try_except.
      destruct (Hpass 0 (errs ++ [txt "Error during infinite scroll: "
                                  ++ msg]) st0)
        as (ps & st' & E & Hinv & Hmore & Hpage);
        [eexists; reflexivity | lia |].
      rewrite E. exists ps, st'. split; [reflexivity|].
      destruct Hinv as (I1 & I2 & I3 & I4 & I5 & I6).
      repeat split; try lia; exact Hmore.
  - destruct (page_loop_ok config max_pages (Z.to_nat max_pages)
                (initial_pages B errs) st)
      as (ps & st' & E & (Hinv & _ & Hmore & _) & Hpage & _);
      [simpl; lia|].
    exists ps, st'. split; [exact E|].
    destruct (Hinv (initial_pages_inv errs)) as (I1 & I2 & I3 & I4 & I5 & I6).
    simpl in Hpage, Hmore.
    repeat split; try lia; exact Hmore.
Qed.

(** X13. With a pagination type other than [infinite_scroll], the page loop
    returns at most [max_jobs] jobs, reports at most [max_pages] pages, and
    at most one page when the type is ['none']; with [max_pages] or
    [max_jobs] at zero or below it makes no call at all and returns no
    job. *)
Theorem scrape_pages_limits (config : Config) (max_pages : Z)
    (errs : list str) (st : St B) :
  opt_is (pagination_type config) (txt "infinite_scroll") = false ->
  exists ps st',
    scrape_pages B config max_pages errs st = (Ok ps, st')
    /\ Z.of_nat (length (all_jobs B ps)) <= Z.max 0 (max_jobs config)
    /\ 0 <= current_page B ps <= Z.max 0 max_pages
    /\ (opt_is (pagination_type config) (txt "none") = true ->
        current_page B ps <= 1)
    /\ (max_pages <= 0 \/ max_jobs config <= 0 ->
        ps = initial_pages B errs /\ st' = st).
Proof.
  intros Hp. unfold scrape_pages. rewrite Hp.
  destruct (page_loop_ok config max_pages (Z.to_nat max_pages)
              (initial_pages B errs) st)
    as (ps & st' & E & (_ & _ & _ & Hbound) & Hpage & Hnone & Hstop);
    [simpl; lia|].
  exists ps, st'. split; [exact E|].
  simpl in Hpage, Hnone, Hstop, Hbound.
  split; [apply Hbound; [exact Hp | lia]|].
  split; [lia|]. split; [exact Hnone|]. exact Hstop.
Qed.

End PageLoop.

Lemma scrape_pages_limits_witness :
  exists ps st',
    scrape_pages (Scripted.world (Scripted.plain 3)) base_config 2 []
      (Scripted.init (Scripted.plain 3)) = (Ok ps, st')
    /\ Z.of_nat (length (all_jobs _ ps)) <= Z.max 0 (max_jobs base_config)
    /\ 0 <= current_page _ ps <= Z.max 0 2
    /\ (opt_is (pagination_type base_config) (txt "none") = true ->
        current_page _ ps <= 1)
    /\ (2 <= 0 \/ max_jobs base_config <= 0 ->
        ps = initial_pages _ [] /\ st' = Scripted.init (Scripted.plain 3)).
Proof.
  apply (scrape_pages_limits (Scripted.world (Scripted.plain 3)) base_config
           2 [] (Scripted.init (Scripted.plain 3))).
  reflexivity.
Defined.

(** ** The metadata parser: the location of the four-value rule *)

Section LocationRule.

(** A lazy repeat whose continuation fails wherever it may stop fails. *)
Lemma rep_lazy_none (ic : bool) (cs : cset) (k : kont) (c : caps) :
  forall s lo pos,
    (forall j,
       (lo <= j <= length (fst (span (cs_mem ic cs) s)))%nat ->
       k (pos + j)%nat (skipn j s) c = None) ->
    rep_lazy ic cs lo None pos s c k = None.
Proof.
  induction s as [|x s IH]; intros lo pos H; cbn [rep_lazy hi_zero].
  - destruct lo; cbn [Nat.eqb]; [|reflexivity].
    specialize (H 0%nat). simpl in H. rewrite Nat.add_0_r in H.
    rewrite H by lia. reflexivity.
  - assert (Hmore : (if cs_mem ic cs x
                     then rep_lazy ic cs (Nat.pred lo) (hi_pred None)
                            (S pos) s c k
                     else None) = None).
    { destruct (cs_mem ic cs x) eqn:Hx; [|reflexivity].
      apply IH. intros j Hj.
      specialize (H (S j)). cbn [skipn] in H.
      replace (S pos + j)%nat with (pos + S j)%nat by lia.
      apply H. simpl. rewrite Hx.
      destruct (span (cs_mem ic cs) s) as [a b]. simpl in *. lia. }
    destruct lo; cbn [Nat.eqb]; [|exact Hmore].
    specialize (H 0%nat). simpl in H. rewrite Nat.add_0_r in H.
    rewrite H by lia. exact Hmore.
Qed.

(** A lazy repeat stops at the first place where the continuation
    succeeds. *)
Lemma rep_lazy_first (ic : bool) (cs : cset) (k : kont) (c : caps)
    (r : mres) :
  forall a rest lo pos,
    forallb (cs_mem ic cs) a = true ->
    (lo <= length a)%nat ->
    (forall j, (lo <= j < length a)%nat ->
               k (pos + j)%nat (skipn j (a ++ rest)) c = None) ->
    k (pos + length a)%nat rest c = Some r ->
    rep_lazy ic cs lo None pos (a ++ rest) c k = Some r.
Proof.
  induction a as [|x a IH]; intros rest lo pos Ha Hlo Hnone Hk.
  - simpl in *. assert (lo = 0%nat) by lia. subst lo.
    rewrite Nat.add_0_r in Hk.
    destruct rest; cbn [rep_lazy Nat.eqb]; rewrite Hk; reflexivity.
  - simpl in Ha. apply andb_true_iff in Ha as [Hx Ha].
    cbn [app rep_lazy hi_zero]. rewrite Hx.
    assert (Hrec : rep_lazy ic cs (Nat.pred lo) (hi_pred None) (S pos)
                     (a ++ rest) c k = Some r).
    { apply IH; auto.
      - simpl in Hlo. lia.
      - intros j Hj. specialize (Hnone (S j)). cbn [app skipn] in Hnone.
        replace (S pos + j)%nat with (pos + S j)%nat by lia.
        apply Hnone. simpl. lia.
      - rewrite <- Hk. f_equal. simpl. lia. }
    destruct lo; cbn [Nat.eqb]; [|exact Hrec].
    specialize (Hnone 0%nat). cbn [app skipn] in Hnone.
    rewrite Nat.add_0_r in Hnone. rewrite Hnone by (simpl; lia).
    exact Hrec.
Qed.

(** A greedy repeat whose continuation fails wherever it may stop fails. *)
Lemma rep_greedy_none (ic : bool) (cs : cset) (k : kont) (c : caps) :
  forall s lo pos,
    (forall j,
       (lo <= j <= length (fst (span (cs_mem ic cs) s)))%nat ->
       k (pos + j)%nat (skipn j s) c = None) ->
    rep_greedy ic cs lo None pos s c k = None.
Proof.
  induction s as [|x s IH]; intros lo pos H; cbn [rep_greedy hi_zero].
  - destruct lo; cbn [Nat.eqb]; [|reflexivity].
    specialize (H 0%nat). simpl in H. rewrite Nat.add_0_r in H.
    apply H. lia.
  - assert (Hstop : (if Nat.eqb lo 0 then k pos (x :: s) c else None)
                    = None).
    { destruct lo; cbn [Nat.eqb]; [|reflexivity].
      specialize (H 0%nat). simpl in H. rewrite Nat.add_0_r in H.
      apply H. lia. }
    destruct (cs_mem ic cs x) eqn:Hx; [|exact Hstop].
    rewrite IH; [exact Hstop|].
    intros j Hj. specialize (H (S j)). cbn [skipn] in H.
    replace (S pos + j)%nat with (pos + S j)%nat by lia.
    apply H. simpl. rewrite Hx.
    destruct (span (cs_mem ic cs) s) as [a b]. simpl in *. lia.
Qed.

(** A greedy repeat hands the groups on unchanged when its continuation
    does. *)
Lemma rep_greedy_caps (ic : bool) (cs : cset) (k : kont) (c : caps) :
  (forall pos s r, k pos s c = Some r -> m_caps r = c) ->
  forall s lo hi pos r,
    rep_greedy ic cs lo hi pos s c k = Some r -> m_caps r = c.
Proof.
  intros Hk. induction s as [|x s IH]; intros lo hi pos r; cbn [rep_greedy].
  - destruct (hi_zero hi), (Nat.eqb lo 0); try discriminate; apply Hk.
  - destruct (hi_zero hi).
    + destruct (Nat.eqb lo 0); [apply Hk | discriminate].
    + destruct (cs_mem ic cs x).
      * destruct (rep_greedy ic cs (Nat.pred lo) (hi_pred hi) (S pos) s c k)
          as [r'|] eqn:E.
        -- intros Hr. inversion Hr. subst. eapply IH. exact E.
        -- destruct (Nat.eqb lo 0); [apply Hk | discriminate].
      * destruct (Nat.eqb lo 0); [apply Hk | discriminate].
Qed.

Lemma span_before_stop (p : ascii -> bool) (a z : str) (x : ascii) :
  p x = false -> (length (fst (span p (a ++ x :: z))) <= length a)%nat.
Proof.
  intros Hx. induction a as [|y a IH]; simpl.
  - rewrite Hx. simpl. lia.
  - destruct (p y); simpl; [|lia].
    destruct (span p (a ++ x :: z)) as [u v]. simpl in *. lia.
Qed.

Lemma startswith_before_stop (x : ascii) :
  forall L b z,
    startswith L (b ++ x :: z) = true ->
    forallb (fun c => negb (Ascii.eqb c x)) L = true ->
    (length L <= length b)%nat.
Proof.
  induction L as [|a L IH]; intros b z Hs HL; simpl; [lia|].
  simpl in HL. apply andb_true_iff in HL as [Ha HL].
  destruct b as [|y b]; simpl in Hs.
  - apply andb_true_iff in Hs as [Hax _]. rewrite Hax in Ha. discriminate.
  - apply andb_true_iff in Hs as [_ Hs]. apply IH in Hs; auto. simpl. lia.
Qed.

Lemma contains_drop (w s : str) (i : nat) :
  contains w (skipn i s) = true -> contains w s = true.
Proof.
  intros H. apply contains_exists in H as [j Hj].
  rewrite drop_drop in Hj. eapply contains_skipn. exact Hj.
Qed.

Lemma marker_alt_none (L s : str) (pos : nat) (c : caps) :
  (forall j, (1 <= j <= length (fst (span py_isspace s)))%nat ->
             startswith L (skipn j s) = false) ->
  m false (Seq (plus CSpace) (lit L)) pos s c accept = None.
Proof.
  intros H. unfold plus. cbn [m].
  apply rep_greedy_none. intros j Hj.
  rewrite m_lit, lit_prefix_startswith, H; [reflexivity|].
  exact Hj.
Qed.

Lemma marker_alt_caps (L s : str) (pos : nat) (c : caps) (r : mres) :
  m false (Seq (plus CSpace) (lit L)) pos s c accept = Some r ->
  m_caps r = c.
Proof.
  unfold plus. cbn [m]. apply rep_greedy_caps.
  intros pos' s' r'. rewrite m_lit.
  destruct (lit_prefix false L s'); [|discriminate].
  unfold accept. intros Hr. inversion Hr. reflexivity.
Qed.

Lemma marker_alt_some (L ws rest : str) (pos : nat) (c : caps) :
  ws <> [] -> forallb py_isspace ws = true ->
  match L with [] => False | x :: _ => py_isspace x = false end ->
  exists r,
    m false (Seq (plus CSpace) (lit L)) pos (ws ++ L ++ rest) c accept
    = Some r.
Proof.
  intros Hne Hws HL. unfold plus. cbn [m]. eexists.
  apply rep_greedy_take.
  - exact Hws.
  - destruct ws; [contradiction | simpl; lia].
  - exact I.
  - right. destruct L as [|x L]; [contradiction|]. exact HL.
  - rewrite m_lit, lit_prefix_startswith.
    rewrite startswith_app_within by lia. rewrite startswith_refl.
    reflexivity.
Qed.

(** The pattern after the location group: whitespace and a marker, or the
    end of the text. *)
Definition location_stop : re :=
  alts (seqs [plus CSpace; lit (txt "Full time")])
    [seqs [plus CSpace; lit (txt "Experience:")];
     seqs [plus CSpace; lit (txt "Required Skill:")];
     Eol].

Lemma location_markers_no_comma (mk : str) :
  In mk location_markers ->
  forallb (fun c => negb (Ascii.eqb c ",")) mk = true.
Proof.
  intros [<-|[<-|[<-|[]]]]; reflexivity.
Qed.

(** In front of a comma the stop pattern matches only where a marker
    lies. *)
Lemma location_stop_none (w2 rest : str) (pos : nat) (c : caps) :
  (forall mk, In mk location_markers -> contains mk w2 = false) ->
  m false location_stop pos (w2 ++ ","%char :: rest) c accept = None.
Proof.
  intros Hno.
  assert (Halt : forall mk, In mk location_markers ->
            m false (Seq (plus CSpace) (lit mk)) pos (w2 ++ ","%char :: rest)
              c accept = None).
  { intros mk Hin. apply marker_alt_none. intros j Hj.
    destruct (startswith mk (skipn j (w2 ++ ","%char :: rest))) eqn:E;
      [|reflexivity].
    pose proof (span_before_stop py_isspace w2 rest ","%char
                  ltac:(reflexivity)) as Hrun.
    assert (Hjw : (j <= length w2)%nat) by lia.
    rewrite drop_app_le in E by exact Hjw.
    pose proof (startswith_before_stop ","%char mk (skipn j w2) rest E
                  (location_markers_no_comma mk Hin)) as Hlen.
    rewrite length_drop in Hlen.
    assert (Hc : contains mk w2 = true).
    { apply (contains_within mk w2 (","%char :: rest) j); [lia|].
      rewrite drop_app_le by exact Hjw. exact E. }
    rewrite (Hno mk Hin) in Hc. discriminate. }
  unfold location_stop. cbn [alts seqs]. cbn [m].
  pose proof (Halt (txt "Full time") ltac:(simpl; auto)) as H1.
  pose proof (Halt (txt "Experience:") ltac:(simpl; auto)) as H2.
  pose proof (Halt (txt "Required Skill:") ltac:(simpl; auto)) as H3.
  cbn [m] in H1, H2, H3. rewrite H1, H2, H3.
  destruct w2 as [|x [|y w2]]; simpl; try reflexivity.
  destruct rest; reflexivity.
Qed.

Lemma loc_re_comma (w rest : str) :
  (forall mk, In mk location_markers -> contains mk w = false) ->
  re_match false loc_re (w ++ ","%char :: rest) = None.
Proof.
  intros Hno. unfold re_match, loc_re. cbn [seqs]. cbn [m].
  unfold plus_lazy. cbn [m].
  apply rep_lazy_none. intros j Hj.
  pose proof (span_before_stop
                (cs_mem false (CNot (CUnion (ch ",") (ch nl)))) w rest ","%char
                ltac:(reflexivity)) as Hrun.
  assert (Hjw : (j <= length w)%nat) by lia.
  rewrite drop_app_le by exact Hjw.
  apply location_stop_none. intros mk Hin.
  destruct (contains mk (skipn j w)) eqn:E; [|reflexivity].
  apply contains_drop in E. rewrite (Hno mk Hin) in E. discriminate.
Qed.

(** X14. In the four-value form the location is ['N/A'] whenever the text
    has a comma before any of the markers [Full time], [Experience:] and
    [Required Skill:], as in ['Bengaluru, India Full time ...']: the
    pattern of the location does not cross a comma. *)
Theorem parse_metadata_comma_location (metadata_text w rest : str)
    (location posted_date experience skills : str) :
  strip metadata_text = w ++ ","%char :: rest ->
  (forall mk, In mk location_markers -> contains mk w = false) ->
  parse_metadata metadata_text
  = Meta4 location posted_date experience skills ->
  location = na /\ posted_date = na.
Proof.
  intros Hstrip Hno. unfold parse_metadata.
  destruct (negb (truthy metadata_text)); [discriminate|].
  destruct (re_match false special_re (strip metadata_text));
    [discriminate|].
  rewrite Hstrip at 3. rewrite (loc_re_comma w rest Hno).
  destruct (_ || _); [|discriminate].
  intros Hr. inversion Hr. auto.
Qed.

End LocationRule.

Lemma parse_metadata_comma_location_witness :
  strip comma_line
  = txt "Bengaluru" ++ ","%char
    :: txt " India Full time Experience: 10-12 years Required Skill: SAP ABAP"
  /\ parse_metadata comma_line
     = Meta4 na na (txt "10-12 years") (txt "SAP ABAP")
  /\ na = na /\ na = na.
Proof.
  assert (H1 : strip comma_line
               = txt "Bengaluru" ++ ","%char
                 :: txt " India Full time Experience: 10-12 years Required Skill: SAP ABAP")
    by (vm_compute; reflexivity).
  assert (H2 : parse_metadata comma_line
               = Meta4 na na (txt "10-12 years") (txt "SAP ABAP"))
    by (vm_compute; reflexivity).
  split; [exact H1|]. split; [exact H2|].
  apply (parse_metadata_comma_location comma_line (txt "Bengaluru")
           (txt " India Full time Experience: 10-12 years Required Skill: SAP ABAP")
           na na (txt "10-12 years") (txt "SAP ABAP") H1); [|exact H2].
  intros mk [<-|[<-|[<-|[]]]]; vm_compute; reflexivity.
Defined.

Section LocationWord.

Lemma location_stop_unfold (pos : nat) (s : str) (c : caps) :
  m false location_stop pos s c accept
  = match m false (Seq (plus CSpace) (lit (txt "Full time"))) pos s c accept
    with
    | Some r => Some r
    | None =>
        match m false (Seq (plus CSpace) (lit (txt "Experience:"))) pos s c
                accept with
        | Some r => Some r
        | None =>
            match m false (Seq (plus CSpace) (lit (txt "Required Skill:")))
                    pos s c accept with
            | Some r => Some r
            | None => if at_eol s then Some (MRes pos s c) else None
            end
        end
    end.
Proof. reflexivity. Qed.

Lemma location_markers_start (mk : str) :
  In mk location_markers ->
  match mk with [] => False | x :: _ => py_isspace x = false end.
Proof.
  intros [<-|[<-|[<-|[]]]]; reflexivity.
Qed.

(** After whitespace and a marker the stop pattern matches, and it leaves
    the groups as they are. *)
Lemma location_stop_some (mk ws rest : str) (pos : nat) (c : caps) :
  In mk location_markers ->
  ws <> [] -> forallb py_isspace ws = true ->
  exists r,
    m false location_stop pos (ws ++ mk ++ rest) c accept = Some r
    /\ m_caps r = c.
Proof.
  intros Hin Hne Hws. rewrite location_stop_unfold.
  pose proof (marker_alt_some mk ws rest pos c Hne Hws
                (location_markers_start mk Hin)) as [r0 Hsome].
  destruct (m false (Seq (plus CSpace) (lit (txt "Full time"))) pos _ c
              accept) as [r|] eqn:E1.
  { exists r. split; [reflexivity|]. eapply marker_alt_caps. exact E1. }
  destruct (m false (Seq (plus CSpace) (lit (txt "Experience:"))) pos _ c
              accept) as [r|] eqn:E2.
  { exists r. split; [reflexivity|]. eapply marker_alt_caps. exact E2. }
  destruct (m false (Seq (plus CSpace) (lit (txt "Required Skill:"))) pos _ c
              accept) as [r|] eqn:E3.
  { exists r. split; [reflexivity|]. eapply marker_alt_caps. exact E3. }
  destruct Hin as [<-|[<-|[<-|[]]]]; congruence.
Qed.

(** Inside a word the stop pattern does not match. *)
Lemma location_stop_in_word (x y : ascii) (s : str) (pos : nat) (c : caps) :
  py_isspace x = false ->
  m false location_stop pos (x :: y :: s) c accept = None.
Proof.
  intros Hx. rewrite location_stop_unfold.
  rewrite !marker_alt_none; [reflexivity| | |];
    intros j Hj; simpl in Hj; rewrite Hx in Hj; simpl in Hj; lia.
Qed.

Lemma word_char_in_class (c : ascii) :
  word_char c = true ->
  cs_mem false (CNot (CUnion (ch ",") (ch nl))) c = true.
Proof.
  unfold word_char. cbn [cs_mem ch]. intros H.
  apply andb_true_iff in H as [Hs Hc].
  apply negb_true_iff in Hs. apply negb_true_iff in Hc. rewrite Hc.
  destruct (Ascii.eqb_spec c nl) as [->|_]; [|reflexivity].
  vm_compute in Hs. discriminate.
Qed.

Lemma loc_re_word (loc ws mk rest : str) :
  loc <> [] -> forallb word_char loc = true ->
  ws <> [] -> forallb py_isspace ws = true ->
  In mk location_markers ->
  exists r,
    re_match false loc_re (loc ++ ws ++ mk ++ rest) = Some r
    /\ group 1 r = loc.
Proof.
  intros Hloc Hword Hne Hws Hin.
  destruct (location_stop_some mk ws rest (0 + length loc)
              (set_cap 1 (firstn (0 + length loc - 0)
                            (loc ++ ws ++ mk ++ rest)) no_caps)
              Hin Hne Hws) as (r & Hr & Hcaps).
  exists r. split.
  - unfold re_match, loc_re. cbn [seqs]. cbn [m].
    unfold plus_lazy. cbn [m].
    apply rep_lazy_first.
    + rewrite forallb_forall in *. intros c Hc.
      apply word_char_in_class. apply Hword. exact Hc.
    + destruct loc; [contradiction | simpl; lia].
    + intros j Hj. rewrite drop_app_le by lia.
      destruct (skipn j loc) as [|x l'] eqn:E.
      { apply (f_equal length) in E. rewrite length_drop in E.
        simpl in E. lia. }
      assert (Hx : word_char x = true).
      { rewrite forallb_forall in Hword. apply Hword.
        rewrite <- (take_drop j loc), E. apply in_or_app. right. left.
        reflexivity. }
      unfold word_char in Hx. apply andb_true_iff in Hx as [Hx _].
      apply negb_true_iff in Hx.
      destruct (l' ++ ws ++ mk ++ rest) as [|y s] eqn:E2.
      { apply app_eq_nil in E2 as [_ E2].
        apply app_eq_nil in E2 as [E2 _]. contradiction. }
      cbn [app]. rewrite E2.
      apply (location_stop_in_word x y s _ _ Hx).
    + exact Hr.
  - unfold group. rewrite Hcaps. unfold set_cap. cbn [Nat.eqb].
    replace (0 + length loc - 0)%nat with (length loc) by lia.
    apply take_app_length.
Qed.

Lemma strip_by_none (p : ascii -> bool) (s : str) :
  forallb (fun c => negb (p c)) s = true -> strip_by p s = s.
Proof.
  intros H.
  assert (Hl : forall u, forallb (fun c => negb (p c)) u = true ->
                         lstrip_by p u = u).
  { intros [|x u]; simpl; [reflexivity|]. intros Hu.
    apply andb_true_iff in Hu as [Hx _]. apply negb_true_iff in Hx.
    rewrite Hx. reflexivity. }
  unfold strip_by, rstrip_by. rewrite (Hl s H). rewrite Hl.
  - apply rev_involutive.
  - rewrite forallb_forall in *. intros c Hc. apply H.
    apply in_rev. exact Hc.
Qed.

(** X15. When [parse_metadata] returns four values and the stripped text
    starts with one word (no whitespace, no comma), then whitespace, then
    [Full time], [Experience:] or [Required Skill:], the location is that
    word and the posted date is ['N/A']. *)
Theorem parse_metadata_word_location (metadata_text loc ws mk rest : str)
    (location posted_date experience skills : str) :
  strip metadata_text = loc ++ ws ++ mk ++ rest ->
  loc <> [] -> forallb word_char loc = true ->
  ws <> [] -> forallb py_isspace ws = true ->
  In mk location_markers ->
  parse_metadata metadata_text
  = Meta4 location posted_date experience skills ->
  location = loc /\ posted_date = na.
Proof.
  intros Hstrip Hloc Hword Hne Hws Hin. unfold parse_metadata.
  destruct (negb (truthy metadata_text)); [discriminate|].
  destruct (re_match false special_re (strip metadata_text));
    [discriminate|].
  destruct (loc_re_word loc ws mk rest Hloc Hword Hne Hws Hin)
    as (r & Hr & Hg).
  rewrite Hstrip at 3. rewrite Hr, Hg.
  destruct (_ || _); [|discriminate].
  intros Hres. inversion Hres. split; [|reflexivity].
  unfold strip. apply strip_by_none.
  rewrite forallb_forall in *. intros c Hc.
  specialize (Hword c Hc). unfold word_char in Hword.
  apply andb_true_iff in Hword as [Hs _]. exact Hs.
Qed.

End LocationWord.

Lemma parse_metadata_word_location_witness :
  strip word_line
  = txt "Bengaluru" ++ txt " " ++ txt "Full time"
    ++ txt " Experience: 10-12 years Required Skill: SAP ABAP"
  /\ parse_metadata word_line
     = Meta4 (txt "Bengaluru") na (txt "10-12 years") (txt "SAP ABAP")
  /\ txt "Bengaluru" = txt "Bengaluru" /\ na = na.
Proof.
  assert (H1 : strip word_line
               = txt "Bengaluru" ++ txt " " ++ txt "Full time"
                 ++ txt " Experience: 10-12 years Required Skill: SAP ABAP")
    by (vm_compute; reflexivity).
  assert (H2 : parse_metadata word_line
               = Meta4 (txt "Bengaluru") na (txt "10-12 years")
                   (txt "SAP ABAP"))
    by (vm_compute; reflexivity).
  split; [exact H1|]. split; [exact H2|].
  apply (parse_metadata_word_location word_line (txt "Bengaluru") (txt " ")
           (txt "Full time")
           (txt " Experience: 10-12 years Required Skill: SAP ABAP")
           (txt "Bengaluru") na (txt "10-12 years") (txt "SAP ABAP") H1);
    [discriminate | reflexivity | discriminate | reflexivity
    | left; reflexivity | exact H2].
Defined.

(** * Cleaning a record for the enrichment prompt *)

Section Cleaning.

Lemma split_from_word (w : str) :
  forall word s,
    forallb nonspace w = true ->
    split_from word (w ++ s) = split_from (rev w ++ word) s.
Proof.
  induction w as [|c w IH]; intros word s Hw; [reflexivity|].
  simpl in Hw. apply andb_true_iff in Hw as [Hc Hw].
  unfold nonspace in Hc. apply negb_true_iff in Hc.
  cbn [app split_from]. rewrite Hc. rewrite IH by exact Hw.
  cbn [rev]. rewrite <- app_assoc. reflexivity.
Qed.

Lemma rev_nonempty (w : str) : w <> [] -> rev w <> [].
Proof.
  intros Hw Hr. apply Hw. rewrite <- (rev_involutive w), Hr. reflexivity.
Qed.

(** [' '.join(l).split() == l] for a list of words. *)
Lemma split_join (l : list str) :
  Forall is_word_text l -> split (join (txt " ") l) = l.
Proof.
  unfold split. induction l as [|a l IH]; intros Hl; [reflexivity|].
  inversion Hl as [|? ? [Hne Ha] Hl']. subst.
  destruct l as [|b l].
  - cbn [join]. rewrite <- (app_nil_r a) at 1.
    rewrite split_from_word by exact Ha. rewrite app_nil_r.
    cbn [split_from]. destruct (rev a) eqn:E.
    + exfalso. apply (rev_nonempty a Hne). exact E.
    + rewrite <- E, rev_involutive. reflexivity.
  - change (join (txt " ") (a :: b :: l))
      with (a ++ " "%char :: join (txt " ") (b :: l)).
    rewrite split_from_word by exact Ha. rewrite app_nil_r.
    cbn [split_from]. change (py_isspace " ") with true. cbn iota.
    destruct (rev a) eqn:E.
    + exfalso. apply (rev_nonempty a Hne). exact E.
    + rewrite <- E, rev_involutive. f_equal. apply IH. exact Hl'.
Qed.

Lemma split_from_words (s : str) :
  forall word,
    forallb nonspace word = true ->
    Forall is_word_text (split_from word s).
Proof.
  assert (Hrev : forall word, word <> [] -> forallb nonspace word = true ->
                              is_word_text (rev word)).
  { intros word Hne Hw. split; [apply rev_nonempty; exact Hne|].
    rewrite forallb_forall in *. intros c Hc. apply Hw.
    apply in_rev. exact Hc. }
  induction s as [|c s IH]; intros word Hw; cbn [split_from].
  - destruct word as [|x word]; [constructor|].
    constructor; [|constructor]. apply Hrev; [discriminate | exact Hw].
  - destruct (py_isspace c) eqn:Hc.
    + destruct word as [|x word]; [apply IH; reflexivity|].
      constructor; [apply Hrev; [discriminate | exact Hw]|].
      apply IH. reflexivity.
    + apply IH. simpl. unfold nonspace at 1. rewrite Hc. exact Hw.
Qed.

Lemma filter_join (a : str) (l : list str) :
  List.filter nonspace (join (txt " ") (a :: l))
  = List.filter nonspace a ++ List.filter nonspace (join (txt " ") l).
Proof.
  destruct l as [|b l].
  - simpl. rewrite app_nil_r. reflexivity.
  - change (join (txt " ") (a :: b :: l))
      with (a ++ " "%char :: join (txt " ") (b :: l)).
    rewrite List.filter_app. reflexivity.
Qed.

Lemma filter_split_from (s : str) :
  forall word,
    forallb nonspace word = true ->
    List.filter nonspace (join (txt " ") (split_from word s))
    = rev word ++ List.filter nonspace s.
Proof.
  assert (Hall : forall w, forallb nonspace w = true ->
                           List.filter nonspace w = w).
  { induction w as [|x w IHw]; simpl; [reflexivity|]. intros Hw.
    apply andb_true_iff in Hw as [Hx Hw]. rewrite Hx, IHw by exact Hw.
    reflexivity. }
  assert (Hrev : forall w, forallb nonspace w = true ->
                           forallb nonspace (rev w) = true).
  { intros w Hw. rewrite forallb_forall in *. intros c Hc. apply Hw.
    apply in_rev. exact Hc. }
  induction s as [|c s IH]; intros word Hw; cbn [split_from].
  - destruct word as [|x word]; [reflexivity|].
    cbn [join List.filter]. rewrite app_nil_r. apply Hall, Hrev, Hw.
  - change (List.filter nonspace (c :: s))
      with (if nonspace c then c :: List.filter nonspace s
            else List.filter nonspace s).
    destruct (py_isspace c) eqn:Hc.
    + assert (Hn : nonspace c = false) by (unfold nonspace; rewrite Hc;
                                           reflexivity).
      rewrite Hn.
      destruct word as [|x word]; [apply IH; reflexivity|].
      rewrite filter_join, IH by reflexivity.
      rewrite (Hall _ (Hrev _ Hw)). reflexivity.
    + assert (Hn : nonspace c = true) by (unfold nonspace; rewrite Hc;
                                          reflexivity).
      rewrite Hn, IH.
      * cbn [rev]. rewrite <- app_assoc. reflexivity.
      * simpl. rewrite Hn. exact Hw.
Qed.

Lemma normalize_space_idem (s : str) :
  normalize_space (normalize_space s) = normalize_space s.
Proof.
  unfold normalize_space. rewrite split_join; [reflexivity|].
  apply split_from_words. reflexivity.
Qed.

(** The test of the loop over [additional_fields]. *)
Definition kept (v : str) : bool :=
  negb (str_eqb v na) && negb (str_eqb v []).

Definition copied (jd : gmap string str) (k : string) : bool :=
  match jd !! k with Some v => kept v | None => false end.

Definition copy_field (jd : gmap string str)
    (cleaned_data : gmap string str) (field : string) : gmap string str :=
  match jd !! field with
  | Some value =>
      if negb (str_eqb value na) && negb (str_eqb value [])
      then <[field := value]> cleaned_data
      else cleaned_data
  | None => cleaned_data
  end.

Lemma copy_fields_lookup (jd : gmap string str) (k : string) :
  forall fields acc,
    fold_left (copy_field jd) fields acc !! k
    = if existsb (String.eqb k) fields && copied jd k then jd !! k
      else acc !! k.
Proof.
  induction fields as [|f fields IH]; intros acc; [reflexivity|].
  cbn [fold_left existsb]. rewrite IH.
  destruct (existsb (String.eqb k) fields && copied jd k) eqn:E.
  - apply andb_true_iff in E as [E1 E2].
    rewrite E1, E2, orb_true_r. reflexivity.
  - destruct (String.eqb_spec k f) as [->|Hne]; cbn [orb].
    + rewrite andb_true_l. unfold copied, kept, copy_field.
      destruct (jd !! f) as [v|] eqn:Hv; [|reflexivity].
      destruct (negb (str_eqb v na) && negb (str_eqb v [])); [|reflexivity].
      rewrite lookup_insert_eq. reflexivity.
    + rewrite E. unfold copy_field.
      destruct (jd !! f) as [v|]; [|reflexivity].
      destruct (negb (str_eqb v na) && negb (str_eqb v [])); [|reflexivity].
      rewrite lookup_insert_ne by congruence. reflexivity.
Qed.

(** [cleaned_data] before the loop. *)
Definition clean_value (v : str) : str :=
  if negb (str_eqb v na) then normalize_space v else v.

Definition cleaned_base (jd : gmap string str) (config : Config)
    : gmap string str :=
  <["source_url" := url config]>
    (<["job_details_info" :=
         clean_value (get_or (jd !! "job_details_info") na)]>
       (<["description" := clean_value (get_or (jd !! "description") na)]>
          (<["apply_link" := get_or (jd !! "apply_link") na]>
             (<["posted_date" := get_or (jd !! "posted_date") na]>
                (<["location" := get_or (jd !! "location") na]>
                   (<["company" :=
                        get_or (jd !! "company")
                          (get_or (company_name config) na)]>
                      (<["title" := get_or (jd !! "title") na]> ∅))))))).

Lemma extract_and_clean_eq (jd : gmap string str) (config : Config) :
  extract_and_clean_job_details jd config
  = fold_left (copy_field jd) additional_fields (cleaned_base jd config).
Proof. reflexivity. Qed.

Definition base_value (jd : gmap string str) (config : Config) (k : string)
    : option str :=
  if String.eqb k "source_url" then Some (url config)
  else if String.eqb k "job_details_info"
  then Some (clean_value (get_or (jd !! "job_details_info") na))
  else if String.eqb k "description"
  then Some (clean_value (get_or (jd !! "description") na))
  else if String.eqb k "apply_link"
  then Some (get_or (jd !! "apply_link") na)
  else if String.eqb k "posted_date"
  then Some (get_or (jd !! "posted_date") na)
  else if String.eqb k "location"
  then Some (get_or (jd !! "location") na)
  else if String.eqb k "company"
  then Some (get_or (jd !! "company") (get_or (company_name config) na))
  else if String.eqb k "title"
  then Some (get_or (jd !! "title") na)
  else None.

Lemma cleaned_base_lookup (jd : gmap string str) (config : Config)
    (k : string) :
  cleaned_base jd config !! k = base_value jd config k.
Proof.
  unfold cleaned_base, base_value.
  destruct (String.eqb_spec k "source_url") as [->|?];
    [rewrite lookup_insert_eq; reflexivity
    |rewrite lookup_insert_ne by congruence].
  destruct (String.eqb_spec k "job_details_info") as [->|?];
    [rewrite lookup_insert_eq; reflexivity
    |rewrite lookup_insert_ne by congruence].
  destruct (String.eqb_spec k "description") as [->|?];
    [rewrite lookup_insert_eq; reflexivity
    |rewrite lookup_insert_ne by congruence].
  destruct (String.eqb_spec k "apply_link") as [->|?];
    [rewrite lookup_insert_eq; reflexivity
    |rewrite lookup_insert_ne by congruence].
  destruct (String.eqb_spec k "posted_date") as [->|?];
    [rewrite lookup_insert_eq; reflexivity
    |rewrite lookup_insert_ne by congruence].
  destruct (String.eqb_spec k "location") as [->|?];
    [rewrite lookup_insert_eq; reflexivity
    |rewrite lookup_insert_ne by congruence].
  destruct (String.eqb_spec k "company") as [->|?];
    [rewrite lookup_insert_eq; reflexivity
    |rewrite lookup_insert_ne by congruence].
  destruct (String.eqb_spec k "title") as [->|?];
    [rewrite lookup_insert_eq; reflexivity
    |rewrite lookup_insert_ne by congruence].
  apply lookup_empty.
Qed.

Lemma cleaned_lookup (jd : gmap string str) (config : Config) (k : string) :
  extract_and_clean_job_details jd config !! k
  = if existsb (String.eqb k) additional_fields && copied jd k then jd !! k
    else base_value jd config k.
Proof.
  rewrite extract_and_clean_eq, copy_fields_lookup, cleaned_base_lookup.
  reflexivity.
Qed.

Lemma additional_not_base (jd : gmap string str) (config : Config)
    (k : string) :
  existsb (String.eqb k) additional_fields = true ->
  base_value jd config k = None.
Proof.
  intros H. apply existsb_exists in H as (f & Hin & Hf).
  apply String.eqb_eq in Hf. subst f.
  repeat (destruct Hin as [<-|Hin]; [reflexivity|]). destruct Hin.
Qed.

Lemma kept_spec (v : str) : kept v = true <-> v <> na /\ v <> [].
Proof.
  unfold kept. rewrite andb_true_iff, !negb_true_iff. split.
  - intros [H1 H2]. split; intros ->.
    + vm_compute in H1. discriminate.
    + vm_compute in H2. discriminate.
  - intros [H1 H2]. split.
    + destruct (str_eqb v na) eqn:E; [|reflexivity].
      apply str_eqb_eq in E. contradiction.
    + destruct (str_eqb v []) eqn:E; [|reflexivity].
      apply str_eqb_eq in E. contradiction.
Qed.

Lemma clean_value_idem (v : str) :
  clean_value (clean_value v) = clean_value v.
Proof.
  unfold clean_value.
  destruct (negb (str_eqb v na)) eqn:E; [|rewrite E; reflexivity].
  destruct (negb (str_eqb (normalize_space v) na)); [|reflexivity].
  apply normalize_space_idem.
Qed.

Lemma cleaned_base_key (jd : gmap string str) (config : Config)
    (k : string) :
  In k cleaned_keys ->
  extract_and_clean_job_details jd config !! k = base_value jd config k.
Proof.
  intros Hin. rewrite cleaned_lookup.
  repeat (destruct Hin as [<-|Hin]; [reflexivity|]). destruct Hin.
Qed.

Lemma base_value_outside (jd : gmap string str) (config : Config)
    (k : string) :
  ~ In k cleaned_keys -> base_value jd config k = None.
Proof.
  intros Hout. unfold base_value.
  repeat match goal with
         | |- context [String.eqb k ?s] =>
             destruct (String.eqb_spec k s) as [->|?];
               [exfalso; apply Hout; simpl; tauto|]
         end.
  reflexivity.
Qed.

(** X16. What reaches the enrichment prompt: the eight basic keys are
    always present; one of the ten additional fields is present exactly
    when the record has it with a value other than ['N/A'] and [''], and
    then with that value; no other key is passed on, so the [experience]
    and [metadata_raw] that the metadata block has stored are dropped. *)
Theorem extract_and_clean_job_details_fields (jd : gmap string str)
    (config : Config) :
  (forall k, In k cleaned_keys ->
     is_Some (extract_and_clean_job_details jd config !! k))
  /\ (forall k v, In k additional_fields ->
        (extract_and_clean_job_details jd config !! k = Some v
         <-> jd !! k = Some v /\ v <> na /\ v <> []))
  /\ (forall k, ~ In k cleaned_keys -> ~ In k additional_fields ->
        extract_and_clean_job_details jd config !! k = None)
  /\ extract_and_clean_job_details jd config !! "experience" = None
  /\ extract_and_clean_job_details jd config !! "metadata_raw" = None.
Proof.
  assert (Hother : forall k, ~ In k cleaned_keys ->
                             ~ In k additional_fields ->
            extract_and_clean_job_details jd config !! k = None).
  { intros k Hb Ha. rewrite cleaned_lookup.
    destruct (existsb (String.eqb k) additional_fields) eqn:E.
    - apply existsb_exists in E as (f & Hin & Hf).
      apply String.eqb_eq in Hf. subst f. contradiction.
    - apply base_value_outside. exact Hb. }
  split; [|split; [|split; [exact Hother|split]]].
  - intros k Hin. rewrite (cleaned_base_key jd config k Hin).
    repeat (destruct Hin as [<-|Hin]; [eexists; reflexivity|]).
    destruct Hin.
  - intros k v Hin. rewrite cleaned_lookup.
    assert (E : existsb (String.eqb k) additional_fields = true).
    { apply existsb_exists. exists k. split; [exact Hin|].
      apply String.eqb_refl. }
    rewrite E, (additional_not_base jd config k E), andb_true_l.
    unfold copied. destruct (jd !! k) as [u|]; [|split; [|intros [? _]];
                                                  discriminate].
    destruct (kept u) eqn:Hk.
    + apply kept_spec in Hk. split.
      * intros Hu. inversion Hu. subst. tauto.
      * intros [Hu _]. exact Hu.
    + split; [discriminate|]. intros (Hu & Hna & Hne). inversion Hu. subst.
      assert (kept v = true) by (apply kept_spec; tauto). congruence.
  - apply Hother; simpl; intros H;
      repeat (destruct H as [H|H]; [discriminate|]); destruct H.
  - apply Hother; simpl; intros H;
      repeat (destruct H as [H|H]; [discriminate|]); destruct H.
Qed.

(** X17. Cleaning a cleaned record changes nothing. *)
Theorem extract_and_clean_job_details_idempotent (jd : gmap string str)
    (config : Config) :
  extract_and_clean_job_details
    (extract_and_clean_job_details jd config) config
  = extract_and_clean_job_details jd config.
Proof.
  apply map_eq. intros k. rewrite cleaned_lookup.
  destruct (existsb (String.eqb k) additional_fields) eqn:E.
  - rewrite andb_true_l.
    rewrite (additional_not_base _ config k E).
    assert (Hk : extract_and_clean_job_details jd config !! k
                 = if copied jd k then jd !! k else None).
    { rewrite cleaned_lookup, E, andb_true_l.
      rewrite (additional_not_base jd config k E). reflexivity. }
    unfold copied at 1. unfold job_data in *. rewrite Hk. unfold copied.
    destruct (jd !! k) as [v|]; [|reflexivity].
    destruct (kept v) eqn:Hv; [rewrite Hv|]; reflexivity.
  - rewrite andb_false_l.
    assert (Hk : extract_and_clean_job_details jd config !! k
                 = base_value jd config k).
    { rewrite cleaned_lookup, E. reflexivity. }
    pose proof (cleaned_base_key jd config) as Hb.
    unfold job_data in *. rewrite Hk. unfold base_value at 1.
    rewrite !Hb by (simpl; tauto).
    unfold base_value. cbn [String.eqb Ascii.eqb Bool.eqb get_or].
    rewrite !clean_value_idem. reflexivity.
Qed.

(** X18. A description (or detail text) other than ['N/A'] reaches the
    prompt as its words joined by single spaces: each word is non-empty
    and free of whitespace, and the non-whitespace characters are those of
    the original, in order. *)
Theorem extract_and_clean_job_details_text (jd : gmap string str)
    (config : Config) (k : string) (text : str) :
  k = "description" \/ k = "job_details_info" ->
  jd !! k = Some text -> text <> na ->
  exists words,
    extract_and_clean_job_details jd config !! k
    = Some (join (txt " ") words)
    /\ Forall is_word_text words
    /\ List.filter nonspace (join (txt " ") words)
       = List.filter nonspace text.
Proof.
  intros Hk Hjd Hna. exists (split text).
  assert (Hclean : clean_value text = join (txt " ") (split text)).
  { unfold clean_value. destruct (str_eqb text na) eqn:E; [|reflexivity].
    apply str_eqb_eq in E. contradiction. }
  split; [|split].
  - destruct Hk as [-> | ->];
      rewrite cleaned_base_key by (simpl; tauto);
      unfold base_value; cbn [String.eqb Ascii.eqb Bool.eqb];
      rewrite Hjd; cbn [get_or]; rewrite Hclean; reflexivity.
  - apply split_from_words. reflexivity.
  - unfold split. rewrite filter_split_from by reflexivity. reflexivity.
Qed.

End Cleaning.

Lemma extract_and_clean_job_details_text_witness :
  extract_and_clean_job_details ragged_record base_config !! "description"
  = Some (txt "Build things fast")
  /\ extract_and_clean_job_details ragged_record base_config !! "experience"
     = None
  /\ extract_and_clean_job_details ragged_record base_config !! "skills"
     = Some (txt "SAP ABAP")
  /\ extract_and_clean_job_details ragged_record base_config !! "salary"
     = None
  /\ exists words,
       extract_and_clean_job_details ragged_record base_config
       !! "description" = Some (join (txt " ") words)
       /\ Forall is_word_text words
       /\ List.filter nonspace (join (txt " ") words)
          = List.filter nonspace (txt "  Build   things
 fast ").
Proof.
  split; [vm_compute; reflexivity|].
  split; [vm_compute; reflexivity|].
  split; [vm_compute; reflexivity|].
  split; [vm_compute; reflexivity|].
  apply (extract_and_clean_job_details_text ragged_record base_config
           "description").
  - left. reflexivity.
  - vm_compute. reflexivity.
  - discriminate.
Defined.

(** ** The duplicate check and its connection *)

Section ConnectionFacts.
Context (B : World).

Ltac close_case :=
  eexists; split;
  [ cbn [snd]; rewrite <- ?app_assoc; reflexivity
  | cbn [app]; split;
    [ intros Hin; simpl in Hin;
      first [ exfalso; intuition discriminate
            | do 5 eexists; repeat split; eassumption ]
    | intros (cursor' & w1' & w2' & n' & w3' & Hc' & He' & Hf');
      first [ simpl; tauto
            | exfalso; cbn [fst] in *; congruence
            | exfalso; cbn [fst] in *;
              rewrite Hc' in *; inv_pairs; congruence
            | exfalso; cbn [fst] in *;
              rewrite Hc' in *; inv_pairs;
              rewrite He' in *; inv_pairs; congruence ] ] ].

(** X19. Once a connection is open, [check_apply_link_exists] closes it
    exactly when the cursor, the query and the fetch succeed and a row
    comes back: when one of them fails the function returns without ever
    calling [conn.close()]. *)
Theorem check_apply_link_exists_closes_after_fetch (link : str)
    (st st1 : St B) (conn : Conn B) :
  truthy link = true ->
  str_eqb link (txt "N/A") = false ->
  get_db_connection B st = (Ok (Some conn), st1) ->
  exists ev,
    snd (snd (check_apply_link_exists B (Some link) st)) = snd st1 ++ ev
    /\ (In DbClose ev <->
        exists cursor w1 w2 n w3,
          db_cursor B conn (fst st1) = (Ok cursor, w1)
          /\ db_execute B cursor link w1 = (Ok tt, w2)
          /\ db_fetchone B cursor w2 = (Ok (Some n), w3)).
Proof.
  intros Ht Hna Hconn. unfold check_apply_link_exists.
  cbn [truthy_opt opt_is get_or]. rewrite Ht, Hna. cbn [negb orb].
  unfold try_except at 1. unfold bind at 1. rewrite Hconn.
  destruct st1 as [w log]. unfold with_. run_monad.
  repeat case_match; inv_pairs; try discriminate; try solve [close_case].
  all: repeat match goal with u : unit |- _ => destruct u end.
  all: eexists; split; [cbn [snd]; rewrite <- ?app_assoc; reflexivity|].
  all: split; [intros _ | intros _; simpl; tauto].
  all: do 5 eexists; repeat split; first [reflexivity | eassumption].
Qed.

End ConnectionFacts.

(** A database whose query fails after the connection is open. *)
Lemma check_apply_link_exists_closes_after_fetch_witness :
  let sc :=
    Scripted.set_count (fun _ => Raise (txt "connection reset"))
      (Scripted.plain 1) in
  let link := txt "https://example.com/job/1" in
  exists ev,
    snd (snd (check_apply_link_exists (Scripted.world sc) (Some link)
                (Scripted.init sc)))
    = [DbConnect] ++ ev
    /\ (In DbClose ev <->
        exists cursor w1 w2 n w3,
          db_cursor (Scripted.world sc) tt Scripted.start = (Ok cursor, w1)
          /\ db_execute (Scripted.world sc) cursor link w1 = (Ok tt, w2)
          /\ db_fetchone (Scripted.world sc) cursor w2 = (Ok (Some n), w3)).
Proof.
  intros sc link.
  apply (check_apply_link_exists_closes_after_fetch (Scripted.world sc) link
           (Scripted.init sc) (Scripted.start, [DbConnect]) tt);
    reflexivity.
Defined.
